(** * navi-gAItor: the flight-analysis front end and the engine it presents

    A shallow embedding of the TypeScript front end (types/index.ts, the
    SignalStrip, RulePanel, EventsTimeline and FlightChart components, the
    useFlightAnalysis and useAiConsole hooks, App's preset selection), a
    model of the server-side rule engine and window projector taken from
    the specification, and the properties the specification states about
    them.

    JavaScript numbers are modelled by rationals [Q]: every finite IEEE
    double is a rational, and the comparisons the code performs, the
    remainder [%], [Math.floor] and the rounding to one decimal are exact
    on doubles.  The division rounds its result to the nearest double
    ([JS.div]), and a number is printed with the shortest digits that
    read back as the same double ([JS.toString]).  Objects used as
    dictionaries and [Map]s are finite maps of stdpp. *)

From Stdlib Require Import QArith Qcanon Qabs Qround ZArith Lia Lqa.
From Stdlib Require Import Ascii String.
From stdpp Require Import gmap strings list fin_maps sorting.

Local Open Scope Z_scope.

(** ** Data model: frontend/src/types/index.ts *)

(** The literal union ['info' | 'warning' | 'critical']. *)
Inductive Severity : Type := info | warning | critical.

#[global] Instance Severity_eq_dec : EqDecision Severity.
Proof. solve_decision. Defined.

(** The string a severity is at run time; it is the key used to index the
    presentation tables. *)
Definition severity_key (s : Severity) : string :=
  match s with
  | info => "info"
  | warning => "warning"
  | critical => "critical"
  end.

(** [FlightEvent]: the index signature [[key: string]: any] holds the
    attached values. *)
Record FlightEvent : Type := {
  fe_type : string;
  fe_time_seconds : Q;
  fe_severity : Severity;
  fe_description : string;
  fe_extra : gmap string string
}.

(** [RuleEvent]. *)
Record RuleEvent : Type := {
  re_rule : string;
  re_severity : Severity;
  re_time_seconds : Q;
  re_description : string;
  re_values : gmap string string
}.

(** [SeriesPoint]: every field but the time is optional. *)
Record SeriesPoint : Type := {
  sp_time_seconds : Q;
  alt_msl_ft : option Q;
  airspeed_indicated_kt : option Q;
  vertical_speed_fpm : option Q;
  roll_deg : option Q;
  pitch_deg : option Q
}.

(** [SignalMatrixPoint]: a time and, by the index signature
    [[key: string]: number | undefined], any number of named signals. *)
Record SignalMatrixPoint : Type := {
  smp_time_seconds : Q;
  smp_signals : gmap string Q
}.

(** The [axis] union of [SignalMeta]. *)
Inductive Axis : Type := axis_left | axis_right | axis_band.

(** [SignalMeta]. *)
Record SignalMeta : Type := {
  sm_key : string;
  sm_label : string;
  sm_unit : string;
  sm_axis : Axis
}.

(** [RiskPoint]. *)
Record RiskPoint : Type := {
  rp_time_seconds : Q;
  hf_index : Q
}.

(** [PresetWindow]; the tuple [[number, number]] is a pair. *)
Record PresetWindow : Type := {
  pw_id : string;
  pw_label : string;
  pw_window : Q * Q
}.

(** [FlightSummary]: the two durations are required, the rest optional. *)
Record FlightSummary : Type := {
  total_duration_seconds : Q;
  total_duration_minutes : Q;
  max_altitude_ft : option Q;
  min_altitude_ft : option Q;
  avg_altitude_ft : option Q;
  max_airspeed_kt : option Q;
  avg_airspeed_kt : option Q;
  max_climb_rate_fpm : option Q;
  max_descent_rate_fpm : option Q;
  max_bank_angle_deg : option Q;
  max_positive_g : option Q;
  max_negative_g : option Q;
  fuel_consumed_gal : option Q
}.

(** [AnalysisResponse], restricted to the fields the embedded code reads.
    [presets] is declared as an array, but App guards it with
    [result.presets && ...] and [result.presets?.[0]], so a missing value
    is part of the model. *)
Record AnalysisResponse : Type := {
  ar_filename : string;
  ar_summary : FlightSummary;
  ar_events : list FlightEvent;
  ar_debrief : string;
  series_data : list SeriesPoint;
  signal_matrix : list SignalMatrixPoint;
  risk_trace : list RiskPoint;
  rule_events : list RuleEvent;
  ar_presets : option (list PresetWindow)
}.

(** [table[event.severity]] on an object literal keyed by severity: a
    property read, [None] standing for the [undefined] a missing key
    gives. *)
Definition lookup_severity (table : gmap string string) (s : Severity) : option string :=
  table !! severity_key s.

(** The class name [`severity-${event.severity}`] RulePanel and
    EventsTimeline build. *)
Definition severity_class (s : Severity) : string :=
  "severity-" +:+ severity_key s.

(** ** JavaScript numbers and strings *)

Module JS.

(** [b^z] as a rational, for an integer exponent of either sign. *)
Definition power (b : positive) (z : Z) : Q :=
  match z with
  | Z0 => 1
  | Zpos p => inject_Z (Zpos (b ^ p))
  | Zneg p => 1 # (b ^ p)
  end.

(** The integer nearest to [num / den] for [den > 0], a tie going to the
    even one: the rounding of IEEE 754 arithmetic. *)
Definition nearest_even (num den : Z) : Z :=
  let q := num / den in
  let r := num mod den in
  if 2 * r <? den then q
  else if den <? 2 * r then q + 1
  else if Z.even q then q else q + 1.

(** The binade of [p / d] for [p, d > 0]: the exponent [e] with
    [2^e <= p / d < 2^(e+1)].  The difference of the two binary
    logarithms is [e] or [e + 1]. *)
Definition binade (p d : Z) : Z :=
  let e0 := Z.log2 p - Z.log2 d in
  let reached :=
    if 0 <=? e0 then d * 2 ^ e0 <=? p else d <=? p * 2 ^ (- e0) in
  if reached then e0 else e0 - 1.

(** The double nearest to a rational, ties to even: around [x] the
    doubles are the multiples of [2^(e-52)], [e] being the binade of [|x|]
    and at least -1022 (below, the subnormal numbers are evenly spaced).
    This is the rounding every arithmetic operation of JavaScript ends
    with.  No infinity is modelled: a rational beyond the largest double
    is rounded as if the exponents had no upper end.  Of the two uses
    below, the division of a double by 60 stays within the doubles
    ([div_60_finite]), and a decimal numeral that JavaScript reads as
    Infinity rounds here to a rational above every double, so that it
    reads back as none. *)
Definition round64 (x : Q) : Q :=
  let x := Qred x in
  let p := Z.abs (Qnum x) in
  let d := Zpos (Qden x) in
  if p =? 0 then 0%Q
  else
    let z := Z.max (binade p d) (-1022) - 52 in
    let n :=
      if 0 <=? z then nearest_even p (d * 2 ^ z) else nearest_even (p * 2 ^ (- z)) d in
    (inject_Z (Z.sgn (Qnum x) * n) * power 2 z)%Q.

(** The largest double, [(2^53 - 1) * 2^971]. *)
Definition max_double : Q := inject_Z ((2 ^ 53 - 1) * 2 ^ 971).

(** Whether a rational is a double. *)
Definition is_double (x : Q) : bool :=
  Qeq_bool (round64 x) x && Qle_bool (Qabs x) max_double.

(** [x / y] on doubles: the exact quotient, rounded. *)
Definition div (x y : Q) : Q := round64 (x / y).

(** [Math.floor], exact on doubles. *)
Definition floor (x : Q) : Z := Qfloor x.

(** Rounding toward zero, the quotient of JavaScript's [%]. *)
Definition trunc (x : Q) : Z :=
  if Qle_bool 0 x then Qfloor x else Qceiling x.

(** [a % b]: the remainder has the sign of the dividend.  The operation is
    exact on doubles: the remainder of two doubles is a double. *)
Definition rem (a b : Q) : Q := (a - b * inject_Z (trunc (a / b)))%Q.

(** Whether a number is an integer. *)
Definition is_integer (x : Q) : bool := Qeq_bool x (inject_Z (Qfloor x)).

(** The character of a decimal digit. *)
Definition digit_char (d : Z) : ascii :=
  ascii_of_nat (48 + Z.to_nat d).

(** The decimal digits of a natural number, most significant first, for
    a number of at most [fuel] digits. *)
Fixpoint digits_of (fuel : nat) (n : Z) : string :=
  match fuel with
  | O => EmptyString
  | S fuel' =>
      if n <? 10 then String (digit_char n) EmptyString
      else digits_of fuel' (n / 10) +:+ String (digit_char (n mod 10)) EmptyString
  end.

(** The decimal digits of a natural number; it has no more decimal digits
    than binary ones. *)
Definition digits (n : Z) : string := digits_of (S (Z.to_nat (Z.log2 n))) n.

(** Decimal digits of an integer, with a leading [-] when negative. *)
Definition string_of_Z (n : Z) : string :=
  if n <? 0 then "-" +:+ digits (- n) else digits n.

(** [n] zeros. *)
Fixpoint zeros (n : nat) : string :=
  match n with
  | O => EmptyString
  | S n' => String "0" (zeros n')
  end.

(** For [0 < a < 1], minus the number of zeros between the decimal point
    and the first significant digit of [a]. *)
Fixpoint leading_zeros (fuel : nat) (a : Q) : Z :=
  match fuel with
  | O => 0
  | S fuel' =>
      if Qle_bool (1 # 10) a then 0 else leading_zeros fuel' (a * 10)%Q - 1
  end.

(** The decimal exponent [n] of [a > 0]: [10^(n-1) <= a < 10^n].  The
    smallest double is above 10^-324. *)
Definition decimal_exponent (a : Q) : Z :=
  if Qle_bool 1 a then Z.of_nat (String.length (digits (Qfloor a)))
  else leading_zeros 400 a.

(** How far apart two rationals are. *)
Definition distance (a b : Q) : Q := Qabs (a - b).

(** Whether the decimal [v * unit] reads back as the double [a]. *)
Definition reads_back (a unit : Q) (v : Z) : bool :=
  Qeq_bool (round64 (inject_Z v * unit)) a.

(** Of the two decimals around [a] that both read back as [a], whether
    the upper one is taken: it is nearer to [a], or as near and even. *)
Definition prefers_upper (a unit : Q) (lo hi : Z) : bool :=
  let dlo := distance (inject_Z lo * unit) a in
  let dhi := distance (inject_Z hi * unit) a in
  reads_back a unit hi && (lo <? hi)
  && (negb (Qle_bool dlo dhi) || (Qeq_bool dlo dhi && Z.even hi)).

(** The digits [Number::toString] prints for a double [a > 0] of decimal
    exponent [n]: the integer [s] of the fewest digits [k] such that
    [s * 10^(n-k)] reads back as [a] (the one nearest to [a] if there are
    two), tried for [k], [k + 1], ...  Only the two [k]-digit decimals
    around [a] can read back as [a]; when the upper one is [10^k] the
    exponent is one more.  Seventeen digits tell any two doubles
    apart. *)
Fixpoint shortest (fuel : nat) (k : Z) (a : Q) (n : Z) : Z * Z :=
  let unit := power 10 (n - k) in
  let lo := Qfloor (a / unit) in
  let hi := Qceiling (a / unit) in
  match fuel with
  | O => (lo, n)
  | S fuel' =>
      if reads_back a unit lo && negb (prefers_upper a unit lo hi) then (lo, n)
      else if reads_back a unit hi then
        if hi =? 10 ^ k then (10 ^ (k - 1), n + 1) else (hi, n)
      else shortest fuel' (k + 1) a n
  end.

(** [s.substring(i)]. *)
Definition substring_from (i : nat) (s : string) : string :=
  String.substring i (String.length s - i) s.

(** The text of the [k] digits of [s] with decimal exponent [n]: the
    digits and [n - k] zeros when [k <= n <= 21]; a point after the first
    [n] digits when [0 < n <= 21]; [0.], [-n] zeros and the digits when
    [-6 < n <= 0]; otherwise the exponent form. *)
Definition decimal_form (s n : Z) : string :=
  let ds := digits s in
  let k := Z.of_nat (String.length ds) in
  if (k <=? n) && (n <=? 21) then ds +:+ zeros (Z.to_nat (n - k))
  else if (0 <? n) && (n <=? 21) then
    String.substring 0 (Z.to_nat n) ds +:+ "." +:+ substring_from (Z.to_nat n) ds
  else if (-6 <? n) && (n <=? 0) then "0." +:+ zeros (Z.to_nat (- n)) +:+ ds
  else
    let e := n - 1 in
    (if k =? 1 then ds
     else String.substring 0 1 ds +:+ "." +:+ substring_from 1 ds)
      +:+ "e" +:+ (if 0 <=? e then "+" else "-") +:+ digits (Z.abs e).

(** [Number.prototype.toString()] of a double, also the conversion a
    template literal applies: the shortest decimal that reads back as
    the same double, after the sign. *)
Definition toString (x : Q) : string :=
  let x := Qred x in
  if Qeq_bool x 0 then "0"
  else
    let a := Qabs x in
    let '(s, n) := shortest 17 1 a (decimal_exponent a) in
    (if Qle_bool 0 x then "" else "-") +:+ decimal_form s n.

(** [padString] repeated and cut to [n] characters. *)
Fixpoint filler (pad cur : string) (n : nat) : string :=
  match n with
  | O => EmptyString
  | S n' =>
      match cur with
      | String c rest => String c (filler pad rest n')
      | EmptyString =>
          match pad with
          | String c rest => String c (filler pad rest n')
          | EmptyString => EmptyString
          end
      end
  end.

(** [s.padStart(targetLength, padString)]. *)
Definition padStart (s : string) (targetLength : nat) (padString : string) : string :=
  if (targetLength <=? String.length s)%nat then s
  else filler padString padString (targetLength - String.length s) +:+ s.

(** [array.at(-1)]. *)
Definition at_last {A : Type} (l : list A) : option A := last l.

(** [a ?? b] when [a] may be [undefined]. *)
Definition nullish {A : Type} (a : option A) (b : A) : A :=
  match a with
  | Some v => v
  | None => b
  end.

(** [array.findIndex(p)], counting from [i]: the position of the first
    element that satisfies [p], -1 when there is none. *)
Fixpoint findIndex_from {A : Type} (p : A → bool) (l : list A) (i : Z) : Z :=
  match l with
  | [] => -1
  | x :: rest => if p x then i else findIndex_from p rest (i + 1)
  end.

(** [array.findIndex(p)]. *)
Definition findIndex {A : Type} (p : A → bool) (l : list A) : Z :=
  findIndex_from p l 0.

(** [array[k]] for an integer [k]: [undefined] below 0 and from the
    length on. *)
Definition index {A : Type} (l : list A) (k : Z) : option A :=
  if k <? 0 then None else l !! Z.to_nat k.

(** [array.find(p)]: the first element that satisfies [p]. *)
Definition find {A : Type} (p : A → bool) (l : list A) : option A :=
  List.find p l.

(** [s.replace(c, d)] with a one-character string [c]: the first
    occurrence only. *)
Fixpoint replace_first (c d : ascii) (s : string) : string :=
  match s with
  | EmptyString => EmptyString
  | String a rest =>
      if Ascii.eqb a c then String d rest else String a (replace_first c d rest)
  end.

(** [s.replace(/c/g, d)]: every occurrence. *)
Fixpoint replace_all (c d : ascii) (s : string) : string :=
  match s with
  | EmptyString => EmptyString
  | String a rest =>
      String (if Ascii.eqb a c then d else a) (replace_all c d rest)
  end.

End JS.


(** ** RulePanel *)

Module RulePanel.

(** [severityIcon], an object literal of type
    [Record<RuleEvent['severity'], string>]. *)
Definition severityIcon : gmap string string :=
  <["critical" := "🔴"]> (<["warning" := "🟠"]> (<["info" := "🔵"]> ∅)).

End RulePanel.

(** ** EventsTimeline *)

Module EventsTimeline.

(** [severityToHue], of type [Record<FlightEvent['severity'], string>]. *)
Definition severityToHue : gmap string string :=
  <["critical" := "#ff6b6b"]> (<["warning" := "#ffc857"]> (<["info" := "#5cc8ff"]> ∅)).

(** [formatTime] of EventsTimeline.tsx. *)
Definition formatTime (seconds : Q) : string :=
  let mins := JS.floor (JS.div seconds 60) in
  let secs := JS.floor (JS.rem seconds 60) in
  JS.toString (inject_Z mins) +:+ ":"
    +:+ JS.padStart (JS.toString (inject_Z secs)) 2 "0".

(** The heading of a timeline item: [event.type.replace(/_/g, ' ')]. *)
Definition typeLabel (event : FlightEvent) : string :=
  JS.replace_all "_" " " (fe_type event).

End EventsTimeline.

(** ** FlightChart *)

Module FlightChart.

(** [formatter] of FlightChart.tsx: the remainder is not floored. *)
Definition formatter (tick : Q) : string :=
  let minutes := JS.floor (JS.div tick 60) in
  let seconds := JS.rem tick 60 in
  JS.toString (inject_Z minutes) +:+ ":"
    +:+ JS.padStart (JS.toString seconds) 2 "0".

(** The two [Line] elements the chart can hold. *)
Inductive ChartLine : Type := AltitudeLine | AirspeedLine.

#[global] Instance ChartLine_eq_dec : EqDecision ChartLine.
Proof. solve_decision. Defined.

(** What the component renders: the series given to the chart, the lines
    drawn and the critical markers. *)
Record Chart : Type := {
  chart_data : list SeriesPoint;
  chart_lines : list ChartLine;
  criticalMarkers : list FlightEvent
}.

(** [value !== undefined]. *)
Definition defined {A : Type} (v : option A) : bool :=
  match v with
  | Some _ => true
  | None => false
  end.

(** [FlightChart]: [None] stands for the [null] it returns. *)
Definition FlightChart (data : list SeriesPoint) (events : list FlightEvent) : option Chart :=
  match data with
  | [] => None
  | first :: _ =>
      Some {| chart_data := data;
              chart_lines :=
                (if defined (alt_msl_ft first) then [AltitudeLine] else [])
                ++ (if defined (airspeed_indicated_kt first) then [AirspeedLine] else []);
              criticalMarkers :=
                List.filter (λ event, bool_decide (fe_severity event = critical)) events |}
  end.

(** The label of a critical marker: [event.type.replace('_', ' ')]. *)
Definition markerLabel (event : FlightEvent) : string :=
  JS.replace_first "_" " " (fe_type event).

End FlightChart.

(** The format the specification describes, on integers: floor(t/60), a
    colon, and t mod 60 written with two digits. *)
Definition minutes_seconds (t : Z) : string :=
  let m := t / 60 in
  let s := t mod 60 in
  JS.string_of_Z m +:+ ":"
    +:+ (if s <? 10 then "0" +:+ JS.string_of_Z s else JS.string_of_Z s).


(** ** SignalStrip: risk lookup, merge and window filter *)

Module SignalStrip.

(** [formatTime] of SignalStrip.tsx, the same text as EventsTimeline's. *)
Definition formatTime (seconds : Q) : string :=
  let mins := JS.floor (JS.div seconds 60) in
  let secs := JS.floor (JS.rem seconds 60) in
  JS.toString (inject_Z mins) +:+ ":"
    +:+ JS.padStart (JS.toString (inject_Z secs)) 2 "0".

(** The integer [n] that [x.toFixed(1)] prints as [n / 10]: the nearest
    tenth, a tie going to the larger magnitude. *)
Definition nearest_tenth (x : Q) : Z :=
  if Qle_bool 0 x then Qfloor (x * 10 + (1 # 2))%Q
  else - Qfloor (- x * 10 + (1 # 2))%Q.

(** [Number(x.toFixed(1))].  From 10^21 on [toFixed] prints the number
    itself.  The result is a key of a [Map], compared by value, hence a
    canonical rational. *)
Definition tenth_key (x : Q) : Qc :=
  if Qle_bool (inject_Z (10 ^ 21)) (Qabs x) then Q2Qc x
  else Q2Qc (nearest_tenth x # 10).

(** [riskLookup]: [forEach] inserts the points in order, a later point
    replacing an earlier one with the same key. *)
Definition riskLookup (risk : list RiskPoint) : gmap Qc Q :=
  foldl (λ m point, <[tenth_key (rp_time_seconds point) := hf_index point]> m) ∅ risk.

(** One element of [merged]: [{...point, hf_index: lookup ?? 0}]. *)
Definition merge_point (lookup : gmap Qc Q) (point : SignalMatrixPoint) : SignalMatrixPoint :=
  {| smp_time_seconds := smp_time_seconds point;
     smp_signals :=
       <["hf_index" := JS.nullish (lookup !! tenth_key (smp_time_seconds point)) 0%Q]>
         (smp_signals point) |}.

(** [merged = data.map(...)]. *)
Definition merged (data : list SignalMatrixPoint) (risk : list RiskPoint) : list SignalMatrixPoint :=
  map (merge_point (riskLookup risk)) data.

(** The predicate of [filtered]:
    [point.time_seconds >= window[0] && point.time_seconds <= window[1]]. *)
Definition in_window (window : Q * Q) (t : Q) : bool :=
  Qle_bool (fst window) t && Qle_bool t (snd window).

(** [filtered = merged.filter(...)]. *)
Definition filtered (merged : list SignalMatrixPoint) (window : Q * Q) : list SignalMatrixPoint :=
  List.filter (λ point, in_window window (smp_time_seconds point)) merged.

(** [COLORS]. *)
Definition COLORS : list string :=
  ["#63c6ff"; "#80ff8f"; "#ffb347"; "#d66bff"; "#64d2f0"; "#f77fbe"].

(** The stroke of the line of the signal at position [index] of [meta]:
    [COLORS[index % COLORS.length]]. *)
Definition stroke (index : nat) : option string :=
  COLORS !! (index mod length COLORS)%nat.

(** The axis a signal is drawn against:
    [signal.axis === 'right' ? 'right' : 'left']. *)
Definition yAxisId (signal : SignalMeta) : string :=
  match sm_axis signal with
  | axis_right => "right"
  | _ => "left"
  end.

(** [startIndex]:
    [Math.max(0, merged.findIndex((p) => p.time_seconds >= window[0]))]. *)
Definition startIndex (merged : list SignalMatrixPoint) (window : Q * Q) : Z :=
  Z.max 0 (JS.findIndex (λ p, Qle_bool (fst window) (smp_time_seconds p)) merged).

(** [endIndex]: [Math.min(merged.length - 1,
    merged.findIndex((p) => p.time_seconds >= window[1]))]. *)
Definition endIndex (merged : list SignalMatrixPoint) (window : Q * Q) : Z :=
  Z.min (Z.of_nat (length merged) - 1)
        (JS.findIndex (λ p, Qle_bool (snd window) (smp_time_seconds p)) merged).

(** The [endIndex] handed to the Brush:
    [endIndex > -1 ? endIndex : merged.length - 1]. *)
Definition brushEndIndex (merged : list SignalMatrixPoint) (window : Q * Q) : Z :=
  if -1 <? endIndex merged window then endIndex merged window
  else Z.of_nat (length merged) - 1.

(** The range the Brush reports, either index possibly [undefined]. *)
Record BrushRange : Type := {
  range_startIndex : option Z;
  range_endIndex : option Z
}.

(** [handleBrushChange]: the window handed to [onWindowChange], [None]
    when the handler returns without calling it. *)
Definition handleBrushChange (merged : list SignalMatrixPoint) (range : BrushRange)
    : option (Q * Q) :=
  match range_startIndex range, range_endIndex range with
  | Some si, Some ei =>
      let start :=
        JS.nullish (smp_time_seconds <$> JS.index merged (Z.max 0 si)) 0%Q in
      let end_ :=
        JS.nullish
          (smp_time_seconds <$> JS.index merged (Z.min (Z.of_nat (length merged) - 1) ei))
          start in
      Some (start, end_)
  | _, _ => None
  end.

(** The argument recharts passes to [onMouseMove]: nothing, or a state
    whose [activeLabel] may be missing. *)
Record MouseState : Type := {
  activeLabel : option Q
}.

(** [handleMouseMove]: the time handed to [onCursorChange], [None] when
    the handler returns without calling it.  A label of 0 is falsy. *)
Definition handleMouseMove (state : option MouseState) : option Q :=
  match state with
  | None => None
  | Some st =>
      match activeLabel st with
      | None => None
      | Some label => if Qeq_bool label 0 then None else Some label
      end
  end.

End SignalStrip.

(** ** App: duration and preset windows *)

Module App.

(** [result.signal_matrix.at(-1)?.time_seconds
      ?? result.series_data.at(-1)?.time_seconds ?? 0]. *)
Definition duration (result : AnalysisResponse) : Q :=
  JS.nullish
    (match smp_time_seconds <$> JS.at_last (signal_matrix result) with
     | Some t => Some t
     | None => sp_time_seconds <$> JS.at_last (series_data result)
     end)
    0%Q.

(** The [presets] memo. *)
Definition presets (result : option AnalysisResponse) : list PresetWindow :=
  match result with
  | None => []
  | Some r =>
      match ar_presets r with
      | Some (p :: ps) => p :: ps
      | _ => [ {| pw_id := "full"; pw_label := "Full Flight"; pw_window := (0%Q, duration r) |} ]
      end
  end.

(** The two [useState] cells of App. *)
Record AppState : Type := {
  cursorTime : Q;
  windowRange : Q * Q
}.

(** [defaultWindow]: [result.presets?.[0]?.window ?? [0, duration]]. *)
Definition defaultWindow (result : AnalysisResponse) : Q * Q :=
  JS.nullish (pw_window <$> (ar_presets result ≫= head)) (0%Q, duration result).

(** The effect run when [result] changes: nothing without a result,
    else the window and the cursor are set anew. *)
Definition onResult (result : option AnalysisResponse) (st : AppState) : AppState :=
  match result with
  | None => st
  | Some r =>
      {| cursorTime := fst (defaultWindow r); windowRange := defaultWindow r |}
  end.

End App.

(** The duration as the specification words it: the last signal-matrix
    timestamp, else the last series-data timestamp, else 0. *)
Definition full_flight_duration (sm : list SignalMatrixPoint) (sd : list SeriesPoint) : Q :=
  match rev sm, rev sd with
  | p :: _, _ => smp_time_seconds p
  | [], q :: _ => sp_time_seconds q
  | [], [] => 0%Q
  end.


(** ** Calls that overlap

    An [async] function runs without interruption from one [await] to the
    next: a call is a list of such stretches.  While one call awaits,
    stretches of other calls and event handlers can run.  A schedule is
    one order in which the stretches of several calls run, each call's
    stretches in their own order. *)
Inductive interleaving {A : Type} : list (list A) → list A → Prop :=
  | interleaving_done (calls : list (list A)) :
      Forall (λ call, call = []) calls → interleaving calls []
  | interleaving_step (calls : list (list A)) (i : nat) (x : A)
        (rest schedule : list A) :
      calls !! i = Some (x :: rest) →
      interleaving (<[i := rest]> calls) schedule →
      interleaving calls (x :: schedule).

(** ** useFlightAnalysis *)

Module useFlightAnalysis.

(** The [Status] union. *)
Inductive Status : Type := idle | uploading | processing | ready | error.

#[global] Instance Status_eq_dec : EqDecision Status.
Proof. solve_decision. Defined.

(** The four [useState] cells of the hook. *)
Record HookState : Type := {
  status : Status;
  progress : Z;
  error_message : option string;
  result : option AnalysisResponse
}.

(** The four setters; each replaces one cell. *)
Definition setStatus (v : Status) (s : HookState) : HookState :=
  {| status := v; progress := progress s;
     error_message := error_message s; result := result s |}.

Definition setProgress (v : Z) (s : HookState) : HookState :=
  {| status := status s; progress := v;
     error_message := error_message s; result := result s |}.

Definition setError (v : option string) (s : HookState) : HookState :=
  {| status := status s; progress := progress s;
     error_message := v; result := result s |}.

Definition setResult (v : option AnalysisResponse) (s : HookState) : HookState :=
  {| status := status s; progress := progress s;
     error_message := error_message s; result := v |}.

(** What a rejected promise carries: an [Error] with its message, or any
    other value. *)
Inductive Thrown : Type :=
  | ThrownError (message : string)
  | ThrownOther.

(** How [analyzeFlight] turns out: the percentages it reports through the
    progress callback, then the response it resolves with or the value it
    rejects with. *)
Record Upload : Type := {
  reported : list Z;
  settled : Thrown + AnalysisResponse
}.

(** [err instanceof Error ? err.message : 'Analysis failed. ...']. *)
Definition failure_text (err : Thrown) : string :=
  match err with
  | ThrownError message => message
  | ThrownOther => "Analysis failed. Please try again."
  end.

(** The state updates [analyze] performs, in program order. *)
Definition analyze_updates (upload : Upload) : list (HookState → HookState) :=
  [setError None; setProgress 0; setStatus uploading]
  ++ map setProgress (reported upload)
  ++ match settled upload with
     | inr response =>
         [setStatus processing; setResult (Some response); setStatus ready]
     | inl err =>
         [setError (Some (failure_text err)); setStatus error]
     end.

(** The states a caller can observe while the updates are applied one
    after the other, the state before the call excluded. *)
Fixpoint observe (updates : list (HookState → HookState)) (s : HookState) : list HookState :=
  match updates with
  | [] => []
  | u :: rest => u s :: observe rest (u s)
  end.

(** Every state exposed during one call of [analyze]. *)
Definition analyze_trace (upload : Upload) (s : HookState) : list HookState :=
  observe (analyze_updates upload) s.

(** The state once [analyze] has returned. *)
Definition analyze (upload : Upload) (s : HookState) : HookState :=
  foldl (λ st u, u st) s (analyze_updates upload).

(** [reset]. *)
Definition reset (s : HookState) : HookState :=
  setError None (setStatus idle (setProgress 0 (setResult None s))).

(** The stretches of [analyze] and [reset] that run without interruption:
    [analyze] up to [await analyzeFlight(...)]; one call of the progress
    callback; [analyze] from the response to the second [await]; the rest
    of the [try] block; the [catch] block; and [reset], which awaits
    nothing. *)
Inductive Stretch : Type :=
  | Started
  | Reported (percent : Z)
  | Uploaded
  | Completed (response : AnalysisResponse)
  | Failed (err : Thrown)
  | ResetDone.

(** The state updates of a stretch, in program order. *)
Definition stretch_updates (x : Stretch) : list (HookState → HookState) :=
  match x with
  | Started => [setError None; setProgress 0; setStatus uploading]
  | Reported percent => [setProgress percent]
  | Uploaded => [setStatus processing]
  | Completed response => [setResult (Some response); setStatus ready]
  | Failed err => [setError (Some (failure_text err)); setStatus error]
  | ResetDone => [setResult None; setProgress 0; setStatus idle; setError None]
  end.

(** The stretches of one call of [analyze], the upload turning out as
    given. *)
Definition stretches (upload : Upload) : list Stretch :=
  [Started]
  ++ map Reported (reported upload)
  ++ match settled upload with
     | inr response => [Uploaded; Completed response]
     | inl err => [Failed err]
     end.

(** The state updates of a schedule of stretches. *)
Definition schedule_updates (schedule : list Stretch) : list (HookState → HookState) :=
  concat (map stretch_updates schedule).

(** The state once the stretches of a schedule have run. *)
Definition execute (schedule : list Stretch) (s : HookState) : HookState :=
  foldl (λ st u, u st) s (schedule_updates schedule).

(** A schedule seen from one call of [analyze]: its own stretches and
    those of whatever else runs while it awaits. *)
Inductive Turn : Type :=
  | Own (x : Stretch)
  | Other (x : Stretch).

Definition turn_stretch (t : Turn) : Stretch :=
  match t with
  | Own x => x
  | Other x => x
  end.

(** The call's own stretches, in order. *)
Definition owns (schedule : list Turn) : list Stretch :=
  omap (λ t, match t with Own x => Some x | Other _ => None end) schedule.

(** The stretches of the others, in order. *)
Definition others (schedule : list Turn) : list Stretch :=
  omap (λ t, match t with Other x => Some x | Own _ => None end) schedule.

(** The initial values of the four cells. *)
Definition initial : HookState :=
  {| status := idle; progress := 0; error_message := None; result := None |}.

(** [meta]: [{ status, progress, error, hasResult: Boolean(result) }]. *)
Record Meta : Type := {
  meta_status : Status;
  meta_progress : Z;
  meta_error : option string;
  hasResult : bool
}.

Definition meta (s : HookState) : Meta :=
  {| meta_status := status s; meta_progress := progress s;
     meta_error := error_message s;
     hasResult := match result s with Some _ => true | None => false end |}.

(** What a user can have the hook do: analyse a file, the upload turning
    out as given, or reset. *)
Inductive Action : Type :=
  | Analyze (upload : Upload)
  | Reset.

(** The state after one completed action. *)
Definition perform (s : HookState) (a : Action) : HookState :=
  match a with
  | Analyze upload => analyze upload s
  | Reset => reset s
  end.

(** The state after a series of completed actions, each finished before
    the next begins. *)
Definition history (actions : list Action) : HookState :=
  foldl perform initial actions.


End useFlightAnalysis.

(** ** useAiConsole *)

Module useAiConsole.

(** [AiLogEntry]. *)
Record AiLogEntry : Type := {
  entry_id : string;
  entry_command : string;
  entry_response : string;
  entry_timestamp : Z
}.

(** [AiAgentRequest]; an optional field left out is [None]. *)
Record AiAgentRequest : Type := {
  req_command : string;
  window_start : option Q;
  window_end : option Q;
  req_summary : FlightSummary;
  req_rule_events : list RuleEvent;
  context_notes : option string
}.

(** The [{ start, end }] argument of [runCommand]. *)
Record CommandWindow : Type := {
  cw_start : Q;
  cw_end : Q
}.

(** The two [useState] cells of the hook. *)
Record ConsoleState : Type := {
  logs : list AiLogEntry;
  pending : bool
}.

(** Strings hold their text as UTF-8 bytes.  The first bytes of a string,
    as numbers. *)
Definition leading_bytes (s : string) : list N :=
  match s with
  | String a (String b (String c _)) => [N_of_ascii a; N_of_ascii b; N_of_ascii c]
  | String a (String b EmptyString) => [N_of_ascii a; N_of_ascii b]
  | String a EmptyString => [N_of_ascii a]
  | EmptyString => []
  end.

(** The number of bytes of the white-space character or line terminator a
    string starts with, 0 when it starts with neither.  These are the
    characters [trim] removes: tab, line feed, vertical tab, form feed,
    carriage return, space; U+00A0; U+1680; U+2000 to U+200A, U+2028,
    U+2029, U+202F, U+205F; U+3000; U+FEFF. *)
Definition white_width (s : string) : nat :=
  match leading_bytes s with
  | a :: more =>
      if ((9 <=? a) && (a <=? 13) || (a =? 32))%N then 1%nat
      else
        match more with
        | b :: more' =>
            if ((a =? 194) && (b =? 160))%N then 2%nat
            else
              match more' with
              | c :: _ =>
                  if ((a =? 225) && (b =? 154) && (c =? 128)
                      || (a =? 226) && (b =? 128)
                         && ((128 <=? c) && (c <=? 138) || (c =? 168) || (c =? 169) || (c =? 175))
                      || (a =? 226) && (b =? 129) && (c =? 159)
                      || (a =? 227) && (b =? 128) && (c =? 128)
                      || (a =? 239) && (b =? 187) && (c =? 191))%N
                  then 3%nat
                  else 0%nat
              | [] => 0%nat
              end
        | [] => 0%nat
        end
  | [] => 0%nat
  end.

(** [trimStart], dropping [skip] bytes first: the rest of a white-space
    character already recognised. *)
Fixpoint trimStart_from (skip : nat) (s : string) : string :=
  match s with
  | EmptyString => EmptyString
  | String _ rest =>
      match skip with
      | S k => trimStart_from k rest
      | O =>
          match white_width s with
          | S k => trimStart_from k rest
          | O => s
          end
      end
  end.

(** [trimStart]: leading white space removed. *)
Definition trimStart (s : string) : string := trimStart_from 0 s.

(** [trimEnd]: from the first position after which only white space
    follows, everything is dropped. *)
Fixpoint trimEnd (s : string) : string :=
  match s with
  | EmptyString => EmptyString
  | String c rest =>
      match trimStart s with
      | EmptyString => EmptyString
      | String _ _ => String c (trimEnd rest)
      end
  end.

(** [command.trim()]. *)
Definition trim (s : string) : string := trimEnd (trimStart s).

(** [!command.trim()]: the empty string is the only falsy string. *)
Definition blank (command : string) : bool :=
  match trim command with
  | EmptyString => true
  | String _ _ => false
  end.

(** What the surroundings supply to one call: the clock and the random
    number read for the entry id, how [runAiAgent] settles (the log text
    of the response, or the message of the error thrown), and the clock
    read for the entry. *)
Record Surroundings : Type := {
  now_at_start : Z;
  random_text : string;
  agent_reply : string + string;
  now_at_reply : Z
}.

(** The entry appended to [logs], from either branch of the [try]. *)
Definition log_entry (command : string) (env : Surroundings) : AiLogEntry :=
  {| entry_id := JS.string_of_Z (now_at_start env) +:+ "-" +:+ random_text env;
     entry_command := command;
     entry_response :=
       match agent_reply env with
       | inr log => log
       | inl message => "ERROR: " +:+ message
       end;
     entry_timestamp := now_at_reply env |}.

(** [setPending(v)]. *)
Definition setPending (v : bool) (s : ConsoleState) : ConsoleState :=
  {| logs := logs s; pending := v |}.

(** [setLogs((prev) => [...prev, entry])]. *)
Definition appendLog (entry : AiLogEntry) (s : ConsoleState) : ConsoleState :=
  {| logs := logs s ++ [entry]; pending := pending s |}.

(** What one call of [runCommand] does: the requests handed to
    [runAiAgent] and the hook state afterwards. *)
Record Effect : Type := {
  requests : list AiAgentRequest;
  after : ConsoleState
}.

(** [runCommand], closed over [summary] and [ruleEvents]. *)
Definition runCommand (summary : option FlightSummary) (ruleEvents : list RuleEvent)
    (command : string) (window : option CommandWindow)
    (env : Surroundings) (s : ConsoleState) : Effect :=
  match summary with
  | None => {| requests := []; after := s |}
  | Some summary' =>
      if blank command then {| requests := []; after := s |}
      else
        let request :=
          {| req_command := command;
             window_start := cw_start <$> window;
             window_end := cw_end <$> window;
             req_summary := summary';
             req_rule_events := ruleEvents;
             context_notes := None |} in
        {| requests := [request];
           after :=
             setPending false (appendLog (log_entry command env) (setPending true s)) |}
  end.

(** App's wiring, [useAiConsole(result?.summary ?? null,
    result?.rule_events ?? [])]: the first argument. *)
Definition console_summary (result : option AnalysisResponse) : option FlightSummary :=
  ar_summary <$> result.

(** [result?.rule_events ?? []]. *)
Definition console_rule_events (result : option AnalysisResponse) : list RuleEvent :=
  match result with
  | Some r => rule_events r
  | None => []
  end.

(** [reset]: [setLogs([])]. *)
Definition reset (s : ConsoleState) : ConsoleState :=
  {| logs := []; pending := pending s |}.

(** One call of [runCommand] as a user makes it: the text, the window
    and what the surroundings supply. *)
Record Call : Type := {
  call_command : string;
  call_window : option CommandWindow;
  call_env : Surroundings
}.

(** The stretches of [runCommand] that run without interruption: from
    the guard to [await runAiAgent(...)], and from the reply to the
    end. *)
Inductive Stretch : Type :=
  | Asked (c : Call)
  | Answered (c : Call).

(** The stretches of one call: none when the guard returns at once. *)
Definition call_stretches (summary : option FlightSummary) (c : Call) : list Stretch :=
  match summary with
  | None => []
  | Some _ => if blank (call_command c) then [] else [Asked c; Answered c]
  end.

(** The request a call hands to [runAiAgent]. *)
Definition request_of (summary : FlightSummary) (ruleEvents : list RuleEvent) (c : Call)
    : AiAgentRequest :=
  {| req_command := call_command c;
     window_start := cw_start <$> call_window c;
     window_end := cw_end <$> call_window c;
     req_summary := summary;
     req_rule_events := ruleEvents;
     context_notes := None |}.

(** The entry a call leaves in the log. *)
Definition entry_of (c : Call) : AiLogEntry := log_entry (call_command c) (call_env c).

(** One stretch: the first sets [pending] and sends the request, the
    second appends the entry to the log as it is by then and clears
    [pending]. *)
Definition run_stretch (summary : FlightSummary) (ruleEvents : list RuleEvent)
    (e : Effect) (x : Stretch) : Effect :=
  match x with
  | Asked c =>
      {| requests := requests e ++ [request_of summary ruleEvents c];
         after := setPending true (after e) |}
  | Answered c =>
      {| requests := requests e;
         after := setPending false (appendLog (entry_of c) (after e)) |}
  end.

(** The requests sent and the hook state once the stretches of a schedule
    have run. *)
Definition execute (summary : FlightSummary) (ruleEvents : list RuleEvent)
    (schedule : list Stretch) (s : ConsoleState) : Effect :=
  foldl (run_stretch summary ruleEvents) {| requests := []; after := s |} schedule.

(** The calls of a schedule in the order they were made, and in the order
    they were answered. *)
Definition asks (schedule : list Stretch) : list Call :=
  omap (λ x, match x with Asked c => Some c | Answered _ => None end) schedule.

Definition replies (schedule : list Stretch) : list Call :=
  omap (λ x, match x with Answered c => Some c | Asked _ => None end) schedule.

End useAiConsole.


(** ** LoadingOverlay and UploadPanel *)

Module LoadingOverlay.



End LoadingOverlay.

Module UploadPanel.


End UploadPanel.

(** ** AiConsole *)

Module AiConsole.

(** The two [useState] cells of the component. *)
Record FormState : Type := {
  command : string;
  selectedPreset : option string
}.

(** Whether a string or [null] is truthy: [null] and the empty string
    are not. *)
Definition truthy (v : option string) : bool :=
  match v with
  | Some (String _ _) => true
  | _ => false
  end.

(** [presetWindow]: with a preset selected, the window of the first
    preset with that id, [undefined] when there is none; else the
    current window. *)
Definition presetWindow (st : FormState) (window : Q * Q) (presets : list PresetWindow)
    : option (Q * Q) :=
  if truthy (selectedPreset st) then
    pw_window <$>
      JS.find (λ preset, bool_decide (Some (pw_id preset) = selectedPreset st)) presets
  else Some window.

(** What [handleSubmit] does: the call of [onSubmit], if any, and the
    state of the form afterwards. *)
Record Submission : Type := {
  submitted : option (string * useAiConsole.CommandWindow);
  form_after : FormState
}.

(** [handleSubmit]. *)
Definition handleSubmit (st : FormState) (window : Q * Q) (presets : list PresetWindow)
    : Submission :=
  if useAiConsole.blank (command st) then {| submitted := None; form_after := st |}
  else
    let chosen := presetWindow st window presets in
    {| submitted :=
         Some (command st,
               {| useAiConsole.cw_start := JS.nullish (fst <$> chosen) (fst window);
                  useAiConsole.cw_end := JS.nullish (snd <$> chosen) (snd window) |});
       form_after := {| command := EmptyString; selectedPreset := selectedPreset st |} |}.

(** What a user does with the form: type a text, click the chip of a
    preset, submit while the strip shows [window]. *)
Inductive Gesture : Type :=
  | TypeText (text : string)
  | ClickChip (id : string)
  | Submit (window : Q * Q).

(** One gesture: the call of [onSubmit] it causes, if any, and the form
    afterwards. *)
Definition gesture (presets : list PresetWindow) (st : FormState) (g : Gesture)
    : Submission :=
  match g with
  | TypeText text =>
      {| submitted := None;
         form_after := {| command := text; selectedPreset := selectedPreset st |} |}
  | ClickChip id =>
      {| submitted := None;
         form_after := {| command := command st; selectedPreset := Some id |} |}
  | Submit window => handleSubmit st window presets
  end.

(** A series of gestures: the calls of [onSubmit] in order and the form
    at the end. *)
Fixpoint gestures (presets : list PresetWindow) (st : FormState) (gs : list Gesture)
    : list (string * useAiConsole.CommandWindow) * FormState :=
  match gs with
  | [] => ([], st)
  | g :: rest =>
      let one := gesture presets st g in
      let more := gestures presets (form_after one) rest in
      (match submitted one with
       | Some call => call :: fst more
       | None => fst more
       end,
       snd more)
  end.

(** Whether a gesture is a click on a chip. *)
Definition is_click (g : Gesture) : bool :=
  match g with
  | ClickChip _ => true
  | _ => false
  end.

(** A window as the console passes it on. *)
Definition as_command_window (w : Q * Q) : useAiConsole.CommandWindow :=
  {| useAiConsole.cw_start := fst w; useAiConsole.cw_end := snd w |}.

End AiConsole.


(** ** Rule & Risk Engine and windowed extraction

    The engine and the projector run on the server; their sources are not
    among the files embedded above.  This module models them from the
    specification (sections 3, 4.3 and 4.4). *)

Module Engine.

(** Modelled from the spec: the Canonical Sample of section 3, whose
    defining code (the server-side normalizer) is missing; one
    time-indexed record, every canonical signal optional. *)
Record CanonicalSample : Type := {
  cs_time_seconds : Q;
  altitude_ft : option Q;
  airspeed_kt : option Q;
  cs_vertical_speed_fpm : option Q;
  bank_deg : option Q;
  cs_pitch_deg : option Q;
  g_normal : option Q;
  aoa_deg : option Q;
  heading_deg : option Q
}.

(** Modelled from the spec: the Event types of section 3, declared in the
    missing server code. *)
Inductive EventType : Type :=
  TAKEOFF | LANDING | STEEP_TURN | STALL_WARNING | OVERSPEED | G_EXCEEDANCE.

(** Modelled from the spec: the Event of section 3 (missing server code),
    with the numeric value that made it fire attached. *)
Record Event : Type := {
  ev_type : EventType;
  ev_time_seconds : Q;
  ev_severity : Severity;
  ev_value : Q
}.

(** Modelled from the spec: the states of the threshold-with-hysteresis
    machine of section 4.3 (missing server code).  [PENDING] is an
    excursion that has begun at [onset] and has not yet lasted the minimum
    dwell time. *)
Inductive Phase : Type :=
  | ARMED
  | PENDING (onset : Q)
  | TRIGGERED.

Section Detector.

(** What a detector or a rule runs over (Canonical Samples, RiskPoints),
    what it watches (one signal, or several together) and what it emits
    (an Event or a RuleEvent). *)
Context {Sample Value Out : Type}.

(** The time of a sample, in seconds. *)
Variable time : Sample → Q.
(** The signal watched, absent where the sample lacks an input. *)
Variable reading : Sample → option Value.
(** Whether a value is beyond the threshold. *)
Variable beyond : Value → bool.
(** The minimum dwell time in seconds, 0 for a detector without one. *)
Variable dwell : Q.
(** The record emitted, from the onset time and the value at firing. *)
Variable report : Q → Value → Out.

(** Modelled from the spec: one step of a detector of section 4.3
    (missing server code).  A sample without the input is skipped; a
    value within the threshold re-arms; a value beyond it fires once,
    when the excursion has lasted the dwell time, and then nothing is
    emitted until the signal has returned within the threshold. *)
Definition step (ph : Phase) (s : Sample) : Phase * option Out :=
  match reading s with
  | None => (ph, None)
  | Some v =>
      if beyond v then
        match ph with
        | TRIGGERED => (TRIGGERED, None)
        | _ =>
            let onset :=
              match ph with
              | PENDING t0 => t0
              | _ => time s
              end in
            if Qle_bool dwell (time s - onset)
            then (TRIGGERED, Some (report onset v))
            else (PENDING onset, None)
        end
      else (ARMED, None)
  end.

(** Modelled from the spec: the single forward pass of section 4.3
    (missing server code); what each sample makes the detector emit. *)
Fixpoint emissions (ph : Phase) (samples : list Sample) : list (option Out) :=
  match samples with
  | [] => []
  | s :: rest => snd (step ph s) :: emissions (fst (step ph s)) rest
  end.

(** Modelled from the spec: the per-rule state carried across the forward
    pass (section 9; missing server code), after the samples given. *)
Fixpoint phase_after (ph : Phase) (samples : list Sample) : Phase :=
  match samples with
  | [] => ph
  | s :: rest => phase_after (fst (step ph s)) rest
  end.

(** Modelled from the spec: the records a pass leaves behind (missing
    server code), in the order emitted. *)
Definition fired (ph : Phase) (samples : list Sample) : list Out :=
  omap id (emissions ph samples).

(** Modelled from the spec: a detector run over a whole flight (missing
    server code), starting armed. *)
Definition detect (samples : list Sample) : list Out :=
  fired ARMED samples.

End Detector.

(** Whether a sample shows the signal beyond the threshold. *)
Definition exceeds {Sample Value : Type}
    (reading : Sample → option Value) (beyond : Value → bool) (s : Sample) : bool :=
  match reading s with
  | Some v => beyond v
  | None => false
  end.


(** The latest value of the signal among earlier samples. *)
Definition latest_reading {Sample Value : Type}
    (reading : Sample → option Value) (earlier : list Sample) : option Value :=
  last (omap reading earlier).

(** Whether an excursion would begin on the next sample beyond the
    threshold: the signal has not been read yet, or its latest value was
    within the threshold. *)
Definition below_before {Sample Value : Type}
    (reading : Sample → option Value) (beyond : Value → bool)
    (earlier : list Sample) : bool :=
  match latest_reading reading earlier with
  | Some v => negb (beyond v)
  | None => true
  end.

Section SteepTurn.

(** The steep-turn bank threshold, its minimum dwell time and the
    severity grading: constants of the aircraft profile, whose values the
    specification leaves open. *)
Variable steep_bank_deg : Q.
Variable steep_dwell_s : Q.
Variable steep_severity : Q → Severity.

(** Modelled from the spec: the bank magnitude STEEP_TURN watches
    (section 4.3; missing server code). *)
Definition bank_magnitude (s : CanonicalSample) : option Q :=
  Qabs <$> bank_deg s.

(** Modelled from the spec: bank magnitude exceeding the threshold
    (section 4.3; missing server code). *)
Definition bank_beyond (b : Q) : bool := negb (Qle_bool b steep_bank_deg).

(** Modelled from the spec: the STEEP_TURN detector of section 4.3
    (missing server code): bank magnitude exceeding a threshold for a
    minimum dwell time. *)
Definition steep_turns (samples : list CanonicalSample) : list Event :=
  detect cs_time_seconds bank_magnitude bank_beyond steep_dwell_s
    (λ onset b,
       {| ev_type := STEEP_TURN; ev_time_seconds := onset;
          ev_severity := steep_severity b; ev_value := b |})
    samples.

End SteepTurn.


Section GExceedance.

(** The type-rated positive and negative G limits, as magnitudes:
    constants of the aircraft profile. *)
Variable g_limit_positive : Q.
Variable g_limit_negative : Q.

(** Modelled from the spec: the type-rated positive/negative limit of
    section 4.3 (missing server code); which of the two applies to a G
    value goes by its sign. *)
Definition g_limit (g : Q) : Q :=
  if Qle_bool 0 g then g_limit_positive else g_limit_negative.

(** Modelled from the spec: |G| beyond the limit (section 4.3; missing
    server code); a value equal to the limit is not beyond it. *)
Definition g_beyond (g : Q) : bool := negb (Qle_bool (Qabs g) (g_limit g)).

(** Modelled from the spec: the dynamic severity of section 4.3 (missing
    server code): beyond the limit by less than 10% is a warning, by 10%
    or more is critical. *)
Definition g_severity (g : Q) : Severity :=
  if Qle_bool (g_limit g * (11 # 10)) (Qabs g) then critical else warning.

(** Modelled from the spec: the G_EXCEEDANCE Event (sections 3 and 4.3;
    missing server code), graded by the value that fired it. *)
Definition g_event (onset g : Q) : Event :=
  {| ev_type := G_EXCEEDANCE; ev_time_seconds := onset;
     ev_severity := g_severity g; ev_value := g |}.

(** Modelled from the spec: the G_EXCEEDANCE detector of section 4.3
    (missing server code): |G| beyond the type-rated limit, no dwell
    time. *)
Definition g_emissions (ph : Phase) (samples : list CanonicalSample) : list (option Event) :=
  emissions cs_time_seconds g_normal g_beyond 0 g_event ph samples.

(** Modelled from the spec: the G_EXCEEDANCE Events of a flight (missing
    server code). *)
Definition g_exceedances (samples : list CanonicalSample) : list Event :=
  detect cs_time_seconds g_normal g_beyond 0 g_event samples.

End GExceedance.

End Engine.

Module Projector.

Import Engine.

(** Modelled from the spec: the windowed extraction of RuleEvents of
    section 4.4 (missing server code), with the window test of
    SignalStrip. *)
Definition windowed_rule_events (window : Q * Q) (events : list RuleEvent) : list RuleEvent :=
  List.filter (λ e, SignalStrip.in_window window (re_time_seconds e)) events.

(** Modelled from the spec: the windowed extraction of Events of section
    4.4 (missing server code). *)
Definition windowed_events (window : Q * Q) (events : list FlightEvent) : list FlightEvent :=
  List.filter (λ e, SignalStrip.in_window window (fe_time_seconds e)) events.

(** Modelled from the spec: the sub-range of the samples a window
    selects (section 4.4; missing server code). *)
Definition windowed_samples (window : Q * Q) (samples : list CanonicalSample) : list CanonicalSample :=
  List.filter (λ s, SignalStrip.in_window window (cs_time_seconds s)) samples.

(** Modelled from the spec: the larger of two values, the step of a
    running maximum (missing server code). *)
Definition larger (a b : Q) : Q := if Qle_bool a b then b else a.

(** Modelled from the spec: a max value of the Summary of section 3
    (missing server code): the largest value of a signal over the samples
    that carry it, absent when none does. *)
Definition maximum (signal : CanonicalSample → option Q) (samples : list CanonicalSample) : option Q :=
  foldl
    (λ best s,
       match signal s, best with
       | Some v, Some m => Some (larger m v)
       | Some v, None => Some v
       | None, _ => best
       end)
    None samples.

(** Modelled from the spec: the max values of the Summary of section 3
    (missing server code). *)
Record Maxima : Type := {
  mx_altitude_ft : option Q;
  mx_airspeed_kt : option Q;
  mx_bank_angle_deg : option Q;
  mx_positive_g : option Q
}.

(** Modelled from the spec: the max values of the Summary computed from
    a sample sequence (section 3; missing server code). *)
Definition maxima (samples : list CanonicalSample) : Maxima :=
  {| mx_altitude_ft := maximum altitude_ft samples;
     mx_airspeed_kt := maximum airspeed_kt samples;
     mx_bank_angle_deg := maximum bank_magnitude samples;
     mx_positive_g := maximum g_normal samples |}.

(** Modelled from the spec: the Summary scoped to a window of section 4.4
    (missing server code): the aggregate of the samples inside it. *)
Definition windowed_maxima (window : Q * Q) (samples : list CanonicalSample) : Maxima :=
  maxima (windowed_samples window samples).

End Projector.

(** ** The window and the maximum as the specification words them *)

(** A time inside the window [[start, end]], both bounds included. *)
Definition inside (window : Q * Q) (t : Q) : Prop :=
  (fst window <= t)%Q ∧ (t <= snd window)%Q.

(** [m] is the maximum of a signal taken over the samples of the window
    only: a value some sample of the window carries and none exceeds, or
    nothing when no sample of the window carries the signal. *)
Definition greatest_within (window : Q * Q)
    (signal : Engine.CanonicalSample → option Q)
    (samples : list Engine.CanonicalSample) (m : option Q) : Prop :=
  match m with
  | Some v =>
      (∃ s, s ∈ samples ∧ inside window (Engine.cs_time_seconds s) ∧ signal s = Some v) ∧
      (∀ s w, s ∈ samples → inside window (Engine.cs_time_seconds s) →
              signal s = Some w → (w <= v)%Q)
  | None =>
      ∀ s, s ∈ samples → inside window (Engine.cs_time_seconds s) → signal s = None
  end.

(** ** Three statements in the words of the specification, for comparison *)

(** Every G value beyond the limit has a G_EXCEEDANCE Event of its
    grade among the Events of the flight: of severity warning when it is
    less than 10% beyond the limit, critical when 10% or more. *)
Definition every_g_value_has_its_event
    (limit_positive limit_negative : Q) (samples : list Engine.CanonicalSample) : Prop :=
  ∀ (s : Engine.CanonicalSample) (g : Q),
    s ∈ samples → Engine.g_normal s = Some g →
    let limit := Engine.g_limit limit_positive limit_negative g in
    ((limit < Qabs g ∧ Qabs g < limit * (11 # 10))%Q →
       ∃ e, e ∈ Engine.g_exceedances limit_positive limit_negative samples ∧
            Engine.ev_severity e = warning) ∧
    ((limit * (11 # 10) <= Qabs g)%Q →
       ∃ e, e ∈ Engine.g_exceedances limit_positive limit_negative samples ∧
            Engine.ev_severity e = critical).

(** A signal-matrix point without a RiskPoint has no hf_index in its
    merged record. *)
Definition missing_risk_stays_absent
    (data : list SignalMatrixPoint) (risk : list RiskPoint) : Prop :=
  ∀ (i : nat) (point m : SignalMatrixPoint),
    data !! i = Some point →
    SignalStrip.merged data risk !! i = Some m →
    SignalStrip.riskLookup risk !! SignalStrip.tenth_key (smp_time_seconds point) = None →
    smp_signals m !! "hf_index" = None.

(** After a failed run nothing but the error message and the status
    differs from the state before the call. *)
Definition only_error_and_status_change (s s' : useFlightAnalysis.HookState) : Prop :=
  useFlightAnalysis.result s' = useFlightAnalysis.result s ∧
  useFlightAnalysis.progress s' = useFlightAnalysis.progress s.


(** ** Vocabulary of the further properties *)

(** One point of the strip comes strictly before another in time. *)
Definition earlier (x y : SignalMatrixPoint) : Prop :=
  (smp_time_seconds x < smp_time_seconds y)%Q.


(** What a stretch leaves in the result cell, from what was there. *)
Definition stored (x : useFlightAnalysis.Stretch) (before : option AnalysisResponse)
    : option AnalysisResponse :=
  match x with
  | useFlightAnalysis.Completed response => Some response
  | useFlightAnalysis.ResetDone => None
  | _ => before
  end.


(** The calls of a series that carry a non-blank command. *)
Definition answered (calls : list useAiConsole.Call) : list useAiConsole.Call :=
  List.filter (λ c, negb (useAiConsole.blank (useAiConsole.call_command c))) calls.

(** One point of the strip comes no later than another. *)
Definition not_later (x y : SignalMatrixPoint) : Prop :=
  (smp_time_seconds x <= smp_time_seconds y)%Q.

(** How often a character occurs in a string. *)
Fixpoint occurrences (c : ascii) (s : string) : nat :=
  match s with
  | EmptyString => 0
  | String a rest => (if Ascii.eqb a c then 1 else 0) + occurrences c rest
  end.


(** ** Concrete data the properties are exercised on *)

(** A two-minute flight whose first series point has no altitude. *)
Definition sample_response : AnalysisResponse :=
  {| ar_filename := "log.csv";
     ar_summary :=
       {| total_duration_seconds := 120; total_duration_minutes := 2;
          max_altitude_ft := Some 1500%Q; min_altitude_ft := None;
          avg_altitude_ft := None; max_airspeed_kt := Some 140%Q;
          avg_airspeed_kt := None; max_climb_rate_fpm := None;
          max_descent_rate_fpm := None; max_bank_angle_deg := None;
          max_positive_g := None; max_negative_g := None;
          fuel_consumed_gal := None |};
     ar_events := [];
     ar_debrief := "";
     series_data :=
       [ {| sp_time_seconds := 0; alt_msl_ft := None;
            airspeed_indicated_kt := Some 80%Q; vertical_speed_fpm := None;
            roll_deg := None; pitch_deg := None |};
         {| sp_time_seconds := 118; alt_msl_ft := Some 900%Q;
            airspeed_indicated_kt := Some 90%Q; vertical_speed_fpm := None;
            roll_deg := None; pitch_deg := None |} ];
     signal_matrix :=
       [ {| smp_time_seconds := 0; smp_signals := ∅ |};
         {| smp_time_seconds := 120; smp_signals := ∅ |} ];
     risk_trace := [];
     rule_events := [];
     ar_presets := Some [] |}.

(** A rule event inside the window [60, 120]. *)
Definition sample_rule_event : RuleEvent :=
  {| re_rule := "HF_RISK_HIGH"; re_severity := warning; re_time_seconds := 75;
     re_description := "risk index high"; re_values := ∅ |}.

(** The window [60, 120] as the console passes it. *)
Definition sample_window : useAiConsole.CommandWindow :=
  {| useAiConsole.cw_start := 60; useAiConsole.cw_end := 120 |}.

(** A clock, a random number and a reply of the agent. *)
Definition sample_surroundings : useAiConsole.Surroundings :=
  {| useAiConsole.now_at_start := 1700000000000;
     useAiConsole.random_text := "0.5";
     useAiConsole.agent_reply := inr "ok";
     useAiConsole.now_at_reply := 1700000000900 |}.

(** The console before any command. *)
Definition sample_console : useAiConsole.ConsoleState :=
  {| useAiConsole.logs := []; useAiConsole.pending := false |}.

(** The hook after a first analysis has completed. *)
Definition finished_state : useFlightAnalysis.HookState :=
  {| useFlightAnalysis.status := useFlightAnalysis.ready;
     useFlightAnalysis.progress := 100;
     useFlightAnalysis.error_message := None;
     useFlightAnalysis.result := Some sample_response |}.

(** An upload rejected before any progress is reported. *)
Definition failed_upload : useFlightAnalysis.Upload :=
  {| useFlightAnalysis.reported := [];
     useFlightAnalysis.settled := inl (useFlightAnalysis.ThrownError "Network Error") |}.

(** The response to a second file. *)
Definition other_response : AnalysisResponse :=
  {| ar_filename := "second.csv";
     ar_summary := ar_summary sample_response;
     ar_events := [];
     ar_debrief := "";
     series_data := [];
     signal_matrix := [];
     risk_trace := [];
     rule_events := [sample_rule_event];
     ar_presets := None |}.

(** An upload that reports 40% and 100% and then resolves. *)
Definition good_upload : useFlightAnalysis.Upload :=
  {| useFlightAnalysis.reported := [40; 100];
     useFlightAnalysis.settled := inr other_response |}.

(** A failing call during which another call, begun earlier, completes. *)
Definition overlapped_failure : list useFlightAnalysis.Turn :=
  [ useFlightAnalysis.Own useFlightAnalysis.Started;
    useFlightAnalysis.Other useFlightAnalysis.Uploaded;
    useFlightAnalysis.Other (useFlightAnalysis.Completed other_response);
    useFlightAnalysis.Own (useFlightAnalysis.Failed (useFlightAnalysis.ThrownError "Network Error")) ].

(** A first upload is begun, the Reset button is clicked, a second upload
    is begun and fails, and then the first one completes. *)
Definition overtaken_schedule : list useFlightAnalysis.Stretch :=
  [ useFlightAnalysis.Started;
    useFlightAnalysis.ResetDone;
    useFlightAnalysis.Started;
    useFlightAnalysis.Failed (useFlightAnalysis.ThrownError "Network Error");
    useFlightAnalysis.Reported 40;
    useFlightAnalysis.Reported 100;
    useFlightAnalysis.Uploaded;
    useFlightAnalysis.Completed other_response ].

(** Two commands, the second asked before the first is answered and
    answered first. *)
Definition slow_call : useAiConsole.Call :=
  {| useAiConsole.call_command := "List top 5 HF risk hotspots";
     useAiConsole.call_window := None;
     useAiConsole.call_env := sample_surroundings |}.

Definition quick_call : useAiConsole.Call :=
  {| useAiConsole.call_command := "Compare to ACS standards";
     useAiConsole.call_window := None;
     useAiConsole.call_env :=
       {| useAiConsole.now_at_start := 1700000000100;
          useAiConsole.random_text := "0.25";
          useAiConsole.agent_reply := inl "timeout";
          useAiConsole.now_at_reply := 1700000000400 |} |}.

Definition crossed_schedule : list useAiConsole.Stretch :=
  [ useAiConsole.Asked slow_call; useAiConsole.Asked quick_call;
    useAiConsole.Answered quick_call; useAiConsole.Answered slow_call ].

(** A signal-matrix point at 5 s and a RiskPoint at 4 s. *)
Definition point_at_5 : SignalMatrixPoint :=
  {| smp_time_seconds := 5; smp_signals := {[ "altitude_ft" := 1000%Q ]} |}.

(** The only RiskPoint, one second before the signal-matrix point. *)
Definition risk_at_4 : RiskPoint :=
  {| rp_time_seconds := 4; hf_index := 37 |}.

(** A Canonical Sample with the bank angle and G load given. *)
Definition sample_with (t : Q) (bank g : option Q) : Engine.CanonicalSample :=
  {| Engine.cs_time_seconds := t;
     Engine.altitude_ft := Some 1000%Q;
     Engine.airspeed_kt := Some 120%Q;
     Engine.cs_vertical_speed_fpm := None;
     Engine.bank_deg := bank;
     Engine.cs_pitch_deg := None;
     Engine.g_normal := g;
     Engine.aoa_deg := None;
     Engine.heading_deg := None |}.

(** Samples of a flight at 1 Hz: level, banked 50 degrees at 4 G, level
    again, banked for two seconds at 4.2 and 4.5 G, level. *)
Definition level_at_0 : Engine.CanonicalSample := sample_with 0 (Some 10%Q) (Some 1%Q).
Definition banked_at_1 : Engine.CanonicalSample := sample_with 1 (Some 50%Q) (Some 4%Q).
Definition level_at_2 : Engine.CanonicalSample := sample_with 2 (Some 10%Q) (Some 1%Q).
Definition banked_at_3 : Engine.CanonicalSample := sample_with 3 (Some (-52)%Q) (Some (21 # 5)%Q).
Definition banked_at_4 : Engine.CanonicalSample := sample_with 4 (Some 55%Q) (Some (9 # 2)%Q).
Definition level_at_5 : Engine.CanonicalSample := sample_with 5 (Some 5%Q) (Some 1%Q).

(** The six samples in order. *)
Definition g_flight : list Engine.CanonicalSample :=
  [level_at_0; banked_at_1; level_at_2; banked_at_3; banked_at_4; level_at_5].

(** Rule events before and after the window [60, 120]. *)
Definition early_rule_event : RuleEvent :=
  {| re_rule := "LOW_ALTITUDE_BANK"; re_severity := critical; re_time_seconds := 30;
     re_description := "bank at low altitude"; re_values := ∅ |}.

Definition late_rule_event : RuleEvent :=
  {| re_rule := "AOA_MARGIN_LOW"; re_severity := info; re_time_seconds := 121;
     re_description := "margin low"; re_values := ∅ |}.

(** Four points of a strip, one per second from 0 to 3. *)
Definition strip_points : list SignalMatrixPoint :=
  [ {| smp_time_seconds := 0; smp_signals := ∅ |};
    {| smp_time_seconds := 1; smp_signals := {[ "altitude_ft" := 900%Q ]} |};
    {| smp_time_seconds := 2; smp_signals := {[ "altitude_ft" := 950%Q ]} |};
    {| smp_time_seconds := 3; smp_signals := ∅ |} ].

(** Two presets, the full flight and the climb. *)
Definition two_presets : list PresetWindow :=
  [ {| pw_id := "full"; pw_label := "Full Flight"; pw_window := (0, 300)%Q |};
    {| pw_id := "climb"; pw_label := "Climb"; pw_window := (60, 120)%Q |} ].


(** ** Proof steps used repeatedly *)

(** Case analysis on the first rational comparison of the goal. *)
Ltac case_Qle_bool :=
  match goal with
  | |- context [Qle_bool ?a ?b] => destruct (Qle_bool a b) eqn:?
  end.

(** From membership in an explicit list to one case per element, each
    closed by computation. *)
Ltac each_element H :=
  repeat (apply elem_of_cons in H; destruct H as [-> | H]; [done |]);
  try (by apply not_elem_of_nil in H).


(** * Properties *)


(** ** JavaScript helpers on concrete values *)

Example padStart_pads : JS.padStart "5" 2 "0" = "05".
Proof. reflexivity. Qed.

Example padStart_keeps_long : JS.padStart "30.5" 2 "0" = "30.5".
Proof. reflexivity. Qed.

Example padStart_cycles : JS.padStart "7" 6 "ab" = "ababa7".
Proof. reflexivity. Qed.

Example toString_half : JS.toString (61 # 2) = "30.5".
Proof. vm_compute. reflexivity. Qed.

Example toString_negative : JS.toString (-5 # 4) = "-1.25".
Proof. vm_compute. reflexivity. Qed.

(** The double nearest to one tenth is not one tenth, and prints as
    [0.1]; the sum of the doubles of 0.1 and 0.2 prints with seventeen
    digits. *)
Example toString_tenth :
  JS.is_double (1 # 10) = false ∧
  JS.toString (JS.round64 (1 # 10)) = "0.1" ∧
  JS.toString (JS.round64 (JS.round64 (1 # 10) + JS.round64 (2 # 10))) = "0.30000000000000004".
Proof. repeat split; vm_compute; reflexivity. Qed.

(** From 10^21 on, and below 10^-6, the exponent form. *)
Example toString_exponent :
  JS.toString (inject_Z (10 ^ 20)) = "100000000000000000000" ∧
  JS.toString (inject_Z (10 ^ 21)) = "1e+21" ∧
  JS.toString (JS.round64 (inject_Z (10 ^ 23))) = "1e+23" ∧
  JS.toString (JS.round64 (123456 # 10 ^ 11)) = "0.00000123456" ∧
  JS.toString (JS.round64 (1 # 10 ^ 7)) = "1e-7".
Proof. repeat split; vm_compute; reflexivity. Qed.

(** A fifth of a second past the minute, as a double. *)
Example formatter_keeps_fraction :
  FlightChart.formatter (JS.round64 (602 # 10)) = "1:0.20000000000000284".
Proof. vm_compute. reflexivity. Qed.

Example rem_keeps_sign : (JS.rem (-61) 60 == -1)%Q.
Proof. reflexivity. Qed.

Example trim_both_ends : useAiConsole.trim "  why the spike? " = "why the spike?".
Proof. reflexivity. Qed.

(** A no-break space and an ideographic space are white space too. *)
Example trim_wide_spaces :
  useAiConsole.trim
    (String (ascii_of_nat 194) (String (ascii_of_nat 160)
       ("ok" +:+ String (ascii_of_nat 227) (String (ascii_of_nat 128)
                   (String (ascii_of_nat 128) EmptyString)))))
  = "ok".
Proof. reflexivity. Qed.

Example blank_only_spaces :
  useAiConsole.blank (String (ascii_of_nat 9) (String (ascii_of_nat 194)
                     (String (ascii_of_nat 160) " ")))
  = true.
Proof. reflexivity. Qed.

Example tenth_key_rounds :
  SignalStrip.tenth_key (1234 # 100) = Q2Qc (123 # 10) ∧
  SignalStrip.tenth_key (1235 # 100) = Q2Qc (124 # 10) ∧
  SignalStrip.tenth_key (-25 # 100) = Q2Qc (-3 # 10) ∧
  SignalStrip.tenth_key (-4 # 100) = Q2Qc 0.
Proof. repeat split; apply Qc_is_canon; reflexivity. Qed.

(** ** Decimal digits *)

Section Digits.

Lemma digits_of_enough (f1 f2 : nat) (n : Z) :
  (0 ≤ n < 10 ^ Z.of_nat (S f1)) → (n < 10 ^ Z.of_nat (S f2)) →
  JS.digits_of (S f1) n = JS.digits_of (S f2) n.
Proof.
  revert f2 n. induction f1 as [| f1 IH]; intros f2 n Hn1 Hn2.
  - cbn [JS.digits_of]. change (10 ^ Z.of_nat 1) with 10 in Hn1.
    destruct (Z.ltb_spec n 10); [done | lia].
  - cbn [JS.digits_of]. destruct (Z.ltb_spec n 10) as [Hlt | Hge]; [done |].
    destruct f2 as [| f2].
    { change (10 ^ Z.of_nat 1) with 10 in Hn2. lia. }
    f_equal. apply IH.
    + rewrite Nat2Z.inj_succ, Z.pow_succ_r in Hn1 by lia.
      split; [apply Z.div_pos; lia |]. apply Z.div_lt_upper_bound; lia.
    + rewrite Nat2Z.inj_succ, Z.pow_succ_r in Hn2 by lia.
      apply Z.div_lt_upper_bound; lia.
Qed.

Lemma digits_fuel (n : Z) : (0 ≤ n) → (n < 10 ^ Z.of_nat (S (Z.to_nat (Z.log2 n)))).
Proof.
  intros Hn. destruct (Z.eq_dec n 0) as [-> | Hne]; [done |].
  pose proof (Z.log2_spec n ltac:(lia)) as [_ Hup].
  pose proof (Z.log2_nonneg n).
  rewrite Nat2Z.inj_succ, Z2Nat.id by done.
  eapply Z.lt_le_trans; [exact Hup |].
  apply Z.pow_le_mono_l. lia.
Qed.

(** The digits of a number: those of its tenth, then its last digit. *)
Lemma digits_unfold (n : Z) :
  (0 ≤ n) →
  JS.digits n =
    if (n <? 10) then String (JS.digit_char n) EmptyString
    else JS.digits (n / 10) +:+ String (JS.digit_char (n mod 10)) EmptyString.
Proof.
  intros Hn. unfold JS.digits at 1. cbn [JS.digits_of].
  destruct (Z.ltb_spec n 10) as [Hlt | Hge]; [done |].
  f_equal. unfold JS.digits.
  assert (Hq : (0 ≤ n / 10)) by (apply Z.div_pos; lia).
  assert (Hlog : (0 < Z.log2 n)) by (apply Z.log2_pos; lia).
  replace (Z.to_nat (Z.log2 n)) with (S (Z.to_nat (Z.log2 n - 1))) by lia.
  apply digits_of_enough.
  - split; [done |].
    pose proof (Z.log2_spec n ltac:(lia)) as [_ Hup].
    rewrite Nat2Z.inj_succ, Z2Nat.id by lia.
    apply Z.div_lt_upper_bound; [lia |].
    eapply Z.lt_le_trans; [exact Hup |].
    replace (Z.succ (Z.log2 n)) with (Z.succ (Z.succ (Z.log2 n - 1))) by lia.
    rewrite (Z.pow_succ_r 2 (Z.succ _)) by lia.
    rewrite (Z.pow_succ_r 10 (Z.log2 n - 1)) by lia.
    assert (2 ^ Z.succ (Z.log2 n - 1) ≤ 10 ^ (Z.log2 n - 1) * 5); [| lia].
    rewrite Z.pow_succ_r by lia.
    assert (2 ^ (Z.log2 n - 1) ≤ 10 ^ (Z.log2 n - 1)) by (apply Z.pow_le_mono_l; lia).
    lia.
  - by apply digits_fuel.
Qed.

Lemma append_cons (x : ascii) (a b : string) : String x a +:+ b = String x (a +:+ b).
Proof. reflexivity. Qed.

Lemma append_nil_r (a : string) : a +:+ EmptyString = a.
Proof. induction a as [| x a IH]; [done |]. by rewrite append_cons, IH. Qed.

Lemma append_assoc_string (a b c : string) : (a +:+ b) +:+ c = a +:+ (b +:+ c).
Proof. induction a as [| x a IH]; [done |]. by rewrite !append_cons, IH. Qed.

Lemma length_append_string (a b : string) :
  String.length (a +:+ b) = (String.length a + String.length b)%nat.
Proof.
  induction a as [| x a IH]; [done |].
  rewrite append_cons. cbn [String.length]. by rewrite IH.
Qed.

Lemma digits_tenfold (n : Z) :
  (1 ≤ n) → JS.digits (10 * n) = JS.digits n +:+ "0".
Proof.
  intros Hn. rewrite (digits_unfold (10 * n)) by lia.
  destruct (Z.ltb_spec (10 * n) 10); [lia |].
  rewrite (Z.mul_comm 10 n), Z.div_mul, Z.mod_mul by lia. done.
Qed.

(** Trailing zeros of a number are trailing zeros of its digits. *)
Lemma digits_scaled (s : Z) (j : nat) :
  (1 ≤ s) → JS.digits (s * 10 ^ Z.of_nat j) = JS.digits s +:+ JS.zeros j.
Proof.
  revert s. induction j as [| j IH]; intros s Hs.
  - cbn [JS.zeros]. rewrite Z.mul_1_r.
    by rewrite append_nil_r.
  - rewrite Nat2Z.inj_succ, Z.pow_succ_r by lia.
    replace (s * (10 * 10 ^ Z.of_nat j)) with ((10 * s) * 10 ^ Z.of_nat j) by lia.
    rewrite IH by lia. rewrite digits_tenfold by done.
    by rewrite append_assoc_string.
Qed.

Lemma digits_length_pos (n : Z) : (0 ≤ n) → (1 ≤ String.length (JS.digits n))%nat.
Proof.
  intros Hn. rewrite digits_unfold by done.
  destruct (n <? 10); [cbn; lia |].
  rewrite length_append_string. cbn. lia.
Qed.

Lemma digits_length_bound (j : nat) (n : Z) :
  (0 ≤ n < 10 ^ Z.of_nat (S j)) → (String.length (JS.digits n) ≤ S j)%nat.
Proof.
  revert n. induction j as [| j IH]; intros n Hn; rewrite digits_unfold by lia.
  - change (10 ^ Z.of_nat 1) with 10 in Hn.
    destruct (Z.ltb_spec n 10); [cbn; lia | lia].
  - destruct (Z.ltb_spec n 10); [cbn; lia |].
    rewrite length_append_string. cbn [String.length].
    rewrite Nat2Z.inj_succ, Z.pow_succ_r in Hn by lia.
    assert (String.length (JS.digits (n / 10)) ≤ S j)%nat; [| lia].
    apply IH. split; [apply Z.div_pos; lia |].
    apply Z.div_lt_upper_bound; lia.
Qed.

End Digits.

(** ** Rounding to a double *)

Section Rounding.

Lemma Qred_inject_Z (w : Z) : Qred (inject_Z w) = inject_Z w.
Proof. apply Qred_identity. simpl. apply Z.gcd_1_r. Qed.

Lemma nearest_even_whole (x : Z) : JS.nearest_even x 1 = x.
Proof. unfold JS.nearest_even. by rewrite Z.div_1_r, Z.mod_1_r. Qed.

(** The nearest integer is the quotient rounded down, or rounded up when
    the remainder is at least half the divisor. *)
Lemma nearest_even_cases (num den : Z) :
  0 < den →
  JS.nearest_even num den = num / den
  ∨ JS.nearest_even num den = num / den + 1 ∧ den ≤ 2 * (num mod den).
Proof.
  intros Hden. unfold JS.nearest_even.
  destruct (Z.ltb_spec (2 * (num mod den)) den); [by left |].
  destruct (Z.ltb_spec den (2 * (num mod den))); [right; lia |].
  destruct (Z.even (num / den)); [by left | right; lia].
Qed.

(** Below 2^B the binade of a ratio is below B. *)
Lemma binade_upper (p d B : Z) :
  0 < p → 0 < d → 1 ≤ B → p < d * 2 ^ B → JS.binade p d ≤ B - 1.
Proof.
  intros Hp Hd HB Hlt. unfold JS.binade.
  assert (Hlog : Z.log2 p - Z.log2 d ≤ B).
  { assert (Z.log2 p ≤ Z.log2 (d * 2 ^ B)) by (apply Z.log2_le_mono; lia).
    rewrite Z.log2_mul_pow2 in H by lia. lia. }
  set (e0 := Z.log2 p - Z.log2 d) in *.
  destruct (Z.leb_spec 0 e0) as [Hpos | Hneg].
  - destruct (Z.leb_spec (d * 2 ^ e0) p) as [Hreach |]; [| lia].
    assert (2 ^ e0 < 2 ^ B); [| apply Z.pow_lt_mono_r_iff in H; lia].
    apply (Z.mul_lt_mono_pos_l d); lia.
  - destruct (d <=? p * 2 ^ (- e0)); lia.
Qed.

(** Every integer below 2^53 is a double. *)
Lemma round64_integer (w : Z) :
  0 ≤ w < 2 ^ 53 → (JS.round64 (inject_Z w) == inject_Z w)%Q.
Proof.
  intros Hw. unfold JS.round64. rewrite Qred_inject_Z. cbn [Qnum Qden inject_Z].
  destruct (Z.eqb_spec (Z.abs w) 0) as [H0 | Hne].
  { assert (w = 0) as -> by lia. reflexivity. }
  assert (Hpos : 0 < w) by lia.
  rewrite (Z.abs_eq w), (Z.sgn_pos w) by lia.
  assert (HL : 0 ≤ Z.log2 w < 53).
  { split; [apply Z.log2_nonneg |]. apply Z.log2_lt_pow2; lia. }
  assert (Hb : JS.binade w 1 = Z.log2 w).
  { unfold JS.binade. change (Z.log2 1) with 0. rewrite Z.sub_0_r.
    destruct (Z.leb_spec 0 (Z.log2 w)); [| lia].
    pose proof (Z.log2_spec w Hpos).
    destruct (Z.leb_spec (1 * 2 ^ Z.log2 w) w); lia. }
  rewrite Hb, Z.max_l by lia.
  remember (Z.log2 w - 52) as z eqn:Hz.
  destruct z as [| k | k].
  - cbn [Z.leb Z.compare]. change (1 * 2 ^ 0) with 1.
    rewrite nearest_even_whole. unfold Qeq. simpl. lia.
  - lia.
  - change (0 <=? Z.neg k) with false. cbn [Z.opp].
    rewrite nearest_even_whole. unfold Qeq. cbn [JS.power Qmult Qnum Qden inject_Z].
    rewrite Pos2Z.inj_mul, Pos2Z.inj_pow. change (- Z.neg k) with (Z.pos k). lia.
Qed.

(** Dividing an integer of at most 2^53 by 60 in doubles and rounding
    down gives the integer quotient: the division is off by less than a
    sixtieth. *)
Lemma floor_div_60 (t : Z) :
  0 ≤ t ≤ 2 ^ 53 → Qfloor (JS.div (inject_Z t) 60) = t / 60.
Proof.
  intros Ht. unfold JS.div, JS.round64.
  pose proof (Qred_correct (inject_Z t / 60)) as Hx.
  set (x := Qred (inject_Z t / 60)) in *.
  unfold Qeq in Hx. cbn in Hx.
  set (p := Qnum x) in *. set (d := Z.pos (Qden x)) in *.
  assert (Hd : 0 < d) by done.
  destruct (Z.eqb_spec (Z.abs p) 0) as [H0 | Hne].
  { assert (t = 0) as -> by nia. reflexivity. }
  assert (Hp : 0 < p) by nia.
  rewrite (Z.abs_eq p), (Z.sgn_pos p) by lia.
  assert (He : JS.binade p d ≤ 47).
  { apply (binade_upper p d 48); [done | done | lia |].
    change (2 ^ 48) with 281474976710656. change (2 ^ 53) with 9007199254740992 in Ht.
    nia. }
  remember (Z.max (JS.binade p d) (-1022) - 52) as z eqn:Hz.
  destruct z as [| k | k]; [lia | lia |].
  change (0 <=? Z.neg k) with false. change (- Z.neg k) with (Z.pos k).
  set (P := 2 ^ Z.pos k).
  assert (HP : 32 ≤ P).
  { subst P. change 32 with (2 ^ 5). apply Z.pow_le_mono_r; lia. }
  set (n := JS.nearest_even (p * P) d).
  assert (Hfloor : Qfloor (inject_Z (1 * n) * JS.power 2 (Z.neg k)) = n / P).
  { cbn [JS.power Qmult Qnum Qden inject_Z Qfloor].
    rewrite Pos2Z.inj_mul, Pos2Z.inj_pow. f_equal; lia. }
  rewrite Hfloor.
  pose proof (Z.div_mod t 60 ltac:(lia)) as Ht60.
  pose proof (Z.mod_pos_bound t 60 ltac:(lia)) as Hr60.
  set (m := t / 60) in *. set (r := t mod 60) in *.
  pose proof (Z.div_mod (p * P) d ltac:(lia)) as Hqd.
  pose proof (Z.mod_pos_bound (p * P) d ltac:(lia)) as Hrd.
  set (q := p * P / d) in *. set (rho := (p * P) mod d) in *.
  assert (Hn : n = q ∨ n = q + 1 ∧ d ≤ 2 * rho) by (apply nearest_even_cases; lia).
  symmetry. apply (Z.div_unique n P m (n - P * m)); [| lia].
  left.
  (* the products the comparison runs over *)
  assert (Htd : t * 1 * d = 60 * (m * d) + r * d) by (rewrite Ht60 at 1; ring).
  assert (Hrd0 : 0 ≤ r * d ≤ 59 * d) by (split; [apply Z.mul_nonneg_nonneg | apply Z.mul_le_mono_nonneg_r]; lia).
  assert (Hlow : m * d * P ≤ p * P) by (apply Z.mul_le_mono_nonneg_r; lia).
  assert (Hup : 60 * (p * P) ≤ 60 * (m * d * P) + 59 * (d * P)).
  { replace (60 * (p * P)) with (p * 60 * P) by ring.
    replace (60 * (m * d * P) + 59 * (d * P)) with ((60 * (m * d) + 59 * d) * P) by ring.
    apply Z.mul_le_mono_nonneg_r; lia. }
  assert (HW : 32 * d ≤ d * P).
  { rewrite (Z.mul_comm 32 d). apply Z.mul_le_mono_nonneg_l; lia. }
  split.
  - assert (m * P ≤ q); [| lia].
    destruct (Z.le_gt_cases (m * P) q) as [| Hgt]; [done | exfalso].
    assert (d * (q + 1) ≤ d * (m * P)) by (apply Z.mul_le_mono_nonneg_l; lia).
    replace (d * (m * P)) with (m * d * P) in H by ring. lia.
  - destruct Hn as [-> | [-> Hhalf]].
    + assert (q < (m + 1) * P); [| lia].
      destruct (Z.lt_ge_cases q ((m + 1) * P)) as [| Hge]; [done | exfalso].
      assert (d * ((m + 1) * P) ≤ d * q) by (apply Z.mul_le_mono_nonneg_l; lia).
      replace (d * ((m + 1) * P)) with (m * d * P + d * P) in H by ring. lia.
    + assert (q + 1 < (m + 1) * P); [| lia].
      destruct (Z.lt_ge_cases (q + 1) ((m + 1) * P)) as [| Hge]; [done | exfalso].
      assert (d * ((m + 1) * P) ≤ d * (q + 1)) by (apply Z.mul_le_mono_nonneg_l; lia).
      replace (d * ((m + 1) * P)) with (m * d * P + d * P) in H by ring. lia.
Qed.

Lemma nearest_even_bounds (num den : Z) :
  0 ≤ num → 0 < den →
  0 ≤ JS.nearest_even num den ∧ JS.nearest_even num den * den ≤ num + den.
Proof.
  intros Hnum Hden.
  pose proof (Z.div_mod num den ltac:(lia)) as Hdm.
  pose proof (Z.mod_pos_bound num den Hden) as Hmod.
  assert (Hq : 0 ≤ num / den) by (apply Z.div_pos; lia).
  destruct (nearest_even_cases num den Hden) as [-> | [-> _]]; split; nia.
Qed.

(** A double divided by 60 is within the doubles. *)
Lemma div_60_finite (x : Q) :
  (Qabs x <= JS.max_double)%Q → (Qabs (JS.div x 60) <= JS.max_double)%Q.
Proof.
  intros Hx. unfold JS.div, JS.round64.
  pose proof (Qred_correct (x / 60)) as Hy.
  set (y := Qred (x / 60)) in *.
  unfold Qeq in Hy. cbn in Hy.
  unfold JS.max_double, Qle, Qabs in Hx. cbn in Hx.
  set (M := (2 ^ 53 - 1) * 2 ^ 971) in *.
  assert (HM : 0 < M ∧ M < 32 * 2 ^ 1019 ∧ 60 * 2 ^ 966 + 60 ≤ 59 * M) by (by vm_compute).
  destruct x as [nx dx]. cbn in Hx, Hy.
  set (p := Z.abs (Qnum y)). set (d := Z.pos (Qden y)) in *.
  assert (Hd : 0 < d) by done.
  assert (Hp60 : 60 * p ≤ M * d).
  { assert (H : p * (Z.pos dx * 60) = Z.abs nx * d).
    { subst p. rewrite <- (Z.abs_eq (Z.pos dx * 60)) by lia.
      rewrite <- Z.abs_mul. rewrite Pos2Z.inj_mul in Hy. rewrite Hy.
      rewrite Z.abs_mul, Z.mul_1_r, (Z.abs_eq d) by lia. done. }
    assert (H' : Z.abs nx * d ≤ M * Z.pos dx * d) by (apply Z.mul_le_mono_nonneg_r; lia).
    apply (Z.mul_le_mono_pos_r _ _ (Z.pos dx)); [done |]. lia. }
  destruct (Z.eqb_spec p 0) as [H0 | Hne].
  { unfold Qle, JS.max_double. cbn. fold M. lia. }
  assert (Hp : 0 < p) by (subst p; lia).
  assert (He : JS.binade p d ≤ 1018).
  { apply (binade_upper p d 1019); [done | done | lia |].
    assert (60 * p < 60 * (d * 2 ^ 1019)); [| lia].
    assert (M * d < 32 * 2 ^ 1019 * d) by (apply Z.mul_lt_mono_pos_r; lia).
    assert (0 < 2 ^ 1019 * d) by (apply Z.mul_pos_pos; [by vm_compute | done]).
    lia. }
  set (s := Z.sgn (Qnum y)).
  assert (Hs : ∀ n, 0 ≤ n → Z.abs (s * n) = n).
  { intros n Hn. subst s p. destruct (Qnum y); cbn in *; lia. }
  remember (Z.max (JS.binade p d) (-1022) - 52) as z eqn:Hz.
  destruct z as [| k | k].
  - cbn [Z.leb Z.compare]. change (d * 2 ^ 0) with (d * 1). rewrite Z.mul_1_r.
    destruct (nearest_even_bounds p d ltac:(lia) Hd) as [Hn0 Hn].
    set (n := JS.nearest_even p d) in *.
    assert (Hkey : n ≤ M).
    { assert (60 * n ≤ M + 60); [| lia].
      apply (Z.mul_le_mono_pos_r _ _ d); [done |]. lia. }
    unfold Qle, Qabs, JS.max_double. cbn [JS.power Qmult Qnum Qden inject_Z].
    fold M. change (Z.pos (1 * 1)) with 1. pose proof (Hs n Hn0). lia.
  - change (0 <=? Z.pos k) with true. cbn iota.
    set (P := 2 ^ Z.pos k).
    assert (HP : 0 < P ≤ 2 ^ 966).
    { subst P. split; [by apply Z.pow_pos_nonneg |]. apply Z.pow_le_mono_r; lia. }
    assert (HdP : 0 < d * P) by (apply Z.mul_pos_pos; lia).
    destruct (nearest_even_bounds p (d * P) ltac:(lia) HdP) as [Hn0 Hn].
    set (n := JS.nearest_even p (d * P)) in *.
    assert (Hkey : n * P ≤ M).
    { assert (H1 : 60 * (n * P * d) ≤ M * d + 60 * (P * d)).
      { replace (n * P * d) with (n * (d * P)) by ring.
        replace (P * d) with (d * P) by ring. lia. }
      assert (H2 : 60 * (P * d) ≤ 60 * (2 ^ 966 * d)).
      { apply Z.mul_le_mono_nonneg_l; [lia |]. apply Z.mul_le_mono_nonneg_r; lia. }
      assert (H3 : 60 * 2 ^ 966 * d ≤ 59 * M * d) by (apply Z.mul_le_mono_nonneg_r; lia).
      assert (60 * (n * P) ≤ 60 * M); [| lia].
      apply (Z.mul_le_mono_pos_r _ _ d); [done |]. lia. }
    assert (Hval : Z.abs (s * n * P) = n * P).
    { rewrite Z.abs_mul, (Hs n Hn0), (Z.abs_eq P); lia. }
    unfold Qle, Qabs, JS.max_double. cbn [JS.power Qmult Qnum Qden inject_Z].
    fold M. rewrite Pos2Z.inj_pow. fold P. change (Z.pos (1 * 1)) with 1. lia.
  - change (0 <=? Z.neg k) with false. change (- Z.neg k) with (Z.pos k). cbn iota.
    set (P := 2 ^ Z.pos k).
    assert (HP : 1 ≤ P) by (subst P; pose proof (Z.pow_pos_nonneg 2 (Z.pos k)); lia).
    assert (HpP : 0 ≤ p * P) by (apply Z.mul_nonneg_nonneg; lia).
    destruct (nearest_even_bounds (p * P) d HpP Hd) as [Hn0 Hn].
    set (n := JS.nearest_even (p * P) d) in *.
    assert (Hkey : n ≤ M * P).
    { assert (H1 : 60 * (n * d) ≤ M * d * P + 60 * d).
      { assert (60 * p * P ≤ M * d * P) by (apply Z.mul_le_mono_nonneg_r; lia). lia. }
      assert (H2 : 60 * d ≤ 59 * M * d) by (apply Z.mul_le_mono_nonneg_r; lia).
      assert (H3 : M * d * 1 ≤ M * d * P).
      { apply Z.mul_le_mono_nonneg_l; [apply Z.mul_nonneg_nonneg; lia | lia]. }
      assert (60 * n * d ≤ 60 * (M * P) * d); [| apply (Z.mul_le_mono_pos_r _ _ d) in H; lia].
      replace (60 * (M * P) * d) with (M * d * P + 59 * (M * d * P)) by ring.
      lia. }
    unfold Qle, Qabs, JS.max_double. cbn [JS.power Qmult Qnum Qden inject_Z].
    fold M. rewrite Pos2Z.inj_mul, Pos2Z.inj_pow. fold P. pose proof (Hs n Hn0). lia.
Qed.

End Rounding.

(** ** The text of a number *)

Section ToString.

Lemma round64_comp (x y : Q) : (x == y)%Q → JS.round64 x = JS.round64 y.
Proof. intros H. unfold JS.round64. by rewrite (Qred_complete x y H). Qed.

Lemma toString_comp (x y : Q) : (x == y)%Q → JS.toString x = JS.toString y.
Proof. intros H. unfold JS.toString. by rewrite (Qred_complete x y H). Qed.

Lemma power_of_nat (b : positive) (g : nat) :
  JS.power b (Z.of_nat g) = inject_Z (Z.pos b ^ Z.of_nat g).
Proof.
  destruct g as [| g]; [reflexivity |].
  change (Z.of_nat (S g)) with (Z.pos (Pos.of_succ_nat g)).
  cbn [JS.power]. by rewrite Pos2Z.inj_pow.
Qed.

Lemma length_zeros (j : nat) : String.length (JS.zeros j) = j.
Proof. induction j as [| j IH]; [done |]. cbn. by rewrite IH. Qed.

(** A whole number of units reads back as the number [m] exactly when it
    is [m]. *)
Lemma reads_back_integer (m T v : Z) :
  0 ≤ v * T < 2 ^ 53 →
  JS.reads_back (inject_Z m) (inject_Z T) v = true ↔ v * T = m.
Proof.
  intros Hv. unfold JS.reads_back.
  rewrite (round64_comp _ (inject_Z (v * T))) by (by rewrite inject_Z_mult).
  rewrite Qeq_bool_iff, (round64_integer _ Hv).
  split; [apply inject_Z_injective | by intros ->].
Qed.

Lemma floor_of_ratio (m T : Z) : Qfloor (inject_Z m / inject_Z T) = m / T.
Proof. symmetry. apply Zdiv_Qdiv. Qed.

Lemma ceiling_of_ratio (m T : Z) :
  0 < T →
  Qceiling (inject_Z m / inject_Z T) = if m mod T =? 0 then m / T else m / T + 1.
Proof.
  intros HT. unfold Qceiling.
  rewrite (Qfloor_comp _ (inject_Z (- m) / inject_Z T)).
  2: { rewrite inject_Z_opp. unfold Qdiv. ring. }
  rewrite floor_of_ratio.
  destruct (Z.eqb_spec (m mod T) 0) as [H0 | Hne].
  - rewrite Z.div_opp_l_z by lia. lia.
  - rewrite Z.div_opp_l_nz by lia. lia.
Qed.

Section Search.

Variable m : Z.
Hypothesis Hm : 1 ≤ m < 10 ^ 15.

Local Abbreviation n := (Z.of_nat (String.length (JS.digits m))).

(** The search for the shortest digits of a whole number stops at the
    number itself without its trailing zeros. *)
Lemma shortest_integer (g fuel : nat) (k : Z) :
  (g < fuel)%nat → (g ≤ 14)%nat → n - k = Z.of_nat g →
  ∃ (s : Z) (j : nat),
    JS.shortest fuel k (inject_Z m) n = (s, n) ∧ 1 ≤ s ∧ m = s * 10 ^ Z.of_nat j.
Proof.
  revert fuel k. induction g as [| g IH]; intros fuel k Hfuel Hg Hk;
    (destruct fuel as [| fuel]; [lia |]); cbn [JS.shortest]; rewrite Hk, power_of_nat.
  - change (10 ^ Z.of_nat 0) with 1.
    rewrite floor_of_ratio, Z.div_1_r.
    rewrite ceiling_of_ratio by lia. rewrite Z.mod_1_r, Z.div_1_r. cbn [Z.eqb].
    assert (Hlo : JS.reads_back (inject_Z m) (inject_Z 1) m = true).
    { apply reads_back_integer; [| lia]. change (2 ^ 53) with 9007199254740992.
      change (10 ^ 15) with 1000000000000000 in Hm. lia. }
    rewrite Hlo. unfold JS.prefers_upper. rewrite Z.ltb_irrefl, andb_false_r. cbn [negb andb].
    exists m, 0%nat. split; [done |]. split; [lia |]. change (10 ^ Z.of_nat 0) with 1. lia.
  - set (T := 10 ^ Z.of_nat (S g)).
    assert (HT : 10 ≤ T ≤ 10 ^ 14).
    { subst T. split.
      - change 10 with (10 ^ 1) at 1. apply Z.pow_le_mono_r; lia.
      - apply Z.pow_le_mono_r; lia. }
    change (10 ^ 14) with 100000000000000 in HT.
    change (10 ^ 15) with 1000000000000000 in Hm.
    rewrite floor_of_ratio, ceiling_of_ratio by lia.
    pose proof (Z.div_mod m T ltac:(lia)) as Hdm.
    pose proof (Z.mod_pos_bound m T ltac:(lia)) as Hmod.
    destruct (Z.eqb_spec (m mod T) 0) as [H0 | Hne].
    + assert (Hlo : JS.reads_back (inject_Z m) (inject_Z T) (m / T) = true).
      { apply reads_back_integer; [| lia]. change (2 ^ 53) with 9007199254740992. lia. }
      rewrite Hlo. unfold JS.prefers_upper. rewrite Z.ltb_irrefl, andb_false_r. cbn [negb andb].
      exists (m / T), (S g). split; [done |]. fold T. split; lia.
    + assert (Hlo : JS.reads_back (inject_Z m) (inject_Z T) (m / T) = false).
      { apply not_true_is_false. rewrite reads_back_integer; [lia |].
        change (2 ^ 53) with 9007199254740992.
        assert (0 ≤ m / T) by (apply Z.div_pos; lia). nia. }
      assert (Hhi : JS.reads_back (inject_Z m) (inject_Z T) (m / T + 1) = false).
      { apply not_true_is_false. rewrite reads_back_integer; [lia |].
        change (2 ^ 53) with 9007199254740992.
        assert (0 ≤ m / T) by (apply Z.div_pos; lia). nia. }
      rewrite Hlo, Hhi. cbn [andb].
      apply IH; lia.
Qed.

End Search.

(** The string of a whole number below 10^15 is its decimal digits. *)
Lemma toString_integer (m : Z) :
  0 ≤ m < 10 ^ 15 → JS.toString (inject_Z m) = JS.digits m.
Proof.
  intros Hm. destruct (Z.eq_dec m 0) as [-> | Hne]; [reflexivity |].
  assert (Hpos : 1 ≤ m < 10 ^ 15) by lia.
  unfold JS.toString. rewrite Qred_inject_Z.
  assert (Hz : Qeq_bool (inject_Z m) 0 = false).
  { apply not_true_is_false. rewrite Qeq_bool_iff. unfold Qeq. simpl. lia. }
  assert (Ha : Qabs (inject_Z m) = inject_Z m).
  { unfold Qabs, inject_Z. by rewrite Z.abs_eq by lia. }
  assert (Hs : Qle_bool 0 (inject_Z m) = true).
  { apply Qle_bool_iff. unfold Qle. simpl. lia. }
  assert (H1 : Qle_bool 1 (inject_Z m) = true).
  { apply Qle_bool_iff. unfold Qle. simpl. lia. }
  rewrite Hz, Ha, Hs. unfold JS.decimal_exponent. rewrite H1, Qfloor_Z.
  pose proof (digits_length_bound 14 m ltac:(change (Z.of_nat 15) with 15; lia)) as Hlen.
  pose proof (digits_length_pos m ltac:(lia)) as Hlen1.
  destruct (shortest_integer m Hpos (String.length (JS.digits m) - 1) 17 1)
    as (s & j & Hsearch & Hs1 & Hsj); [lia | lia | lia |].
  rewrite Hsearch. unfold JS.decimal_form.
  assert (Hn : String.length (JS.digits m) = (String.length (JS.digits s) + j)%nat).
  { rewrite Hsj at 1. rewrite digits_scaled by done.
    by rewrite length_append_string, length_zeros. }
  rewrite Hn.
  destruct (Z.leb_spec (Z.of_nat (String.length (JS.digits s)))
              (Z.of_nat (String.length (JS.digits s) + j))); [| lia].
  destruct (Z.leb_spec (Z.of_nat (String.length (JS.digits s) + j)) 21); [| lia].
  cbn [andb].
  replace (Z.to_nat _) with j by lia.
  rewrite <- (digits_scaled s j Hs1), <- Hsj. reflexivity.
Qed.

End ToString.

(** ** Time formatters *)

Section Formatters.

Local Open Scope Q_scope.

Lemma trunc_of_minutes (t : Z) : (0 ≤ t)%Z → JS.trunc (inject_Z t / 60) = (t / 60)%Z.
Proof.
  intros Ht. unfold JS.trunc.
  assert (H : Qle_bool 0 (inject_Z t / 60) = true).
  { apply Qle_bool_iff. apply Qle_shift_div_l; [reflexivity |].
    rewrite Qmult_0_l. change 0 with (inject_Z 0). by rewrite <- Zle_Qle. }
  rewrite H. symmetry. apply (Zdiv_Qdiv t 60).
Qed.

(** On a non-negative integer JavaScript's remainder is the integer
    remainder. *)
Lemma rem_of_seconds (t : Z) :
  (0 ≤ t)%Z → JS.rem (inject_Z t) 60 == inject_Z (t mod 60).
Proof.
  intros Ht. unfold JS.rem. rewrite trunc_of_minutes by done.
  rewrite (Z.mod_eq t 60) by done.
  unfold Qeq. simpl. lia.
Qed.

Lemma floor_of_seconds (t : Z) :
  (0 ≤ t)%Z → JS.floor (JS.rem (inject_Z t) 60) = (t mod 60)%Z.
Proof.
  intros Ht. unfold JS.floor.
  by rewrite (Qfloor_comp _ _ (rem_of_seconds t Ht)), Qfloor_Z.
Qed.

(** [padStart(2, '0')] on the digits of a number below 60 is the
    two-digit form. *)
Lemma pad_two_digits (s : Z) :
  (0 ≤ s < 60)%Z →
  JS.padStart (JS.digits s) 2 "0"
  = if (s <? 10)%Z then "0" +:+ JS.string_of_Z s else JS.string_of_Z s.
Proof.
  intros Hs.
  assert (H : ∀ k : nat, (k < 60)%nat →
              JS.padStart (JS.digits (Z.of_nat k)) 2 "0"
              = if (Z.of_nat k <? 10)%Z then "0" +:+ JS.string_of_Z (Z.of_nat k)
                else JS.string_of_Z (Z.of_nat k)).
  { intros k Hk.
    do 60 (destruct k as [| k]; [vm_compute; reflexivity |]). lia. }
  rewrite <- (Z2Nat.id s) by lia. apply H. lia.
Qed.

Lemma string_of_natural (n : Z) : (0 ≤ n)%Z → JS.string_of_Z n = JS.digits n.
Proof. intros Hn. unfold JS.string_of_Z. by destruct (Z.ltb_spec n 0); [lia |]. Qed.

(** Whatever the integer, FlightChart's formatter prints what the two
    others print: the remainder it does not floor is whole already. *)
Lemma formatter_as_formatTime (t : Z) :
  (0 ≤ t)%Z → FlightChart.formatter (inject_Z t) = EventsTimeline.formatTime (inject_Z t).
Proof.
  intros Ht. unfold FlightChart.formatter, EventsTimeline.formatTime. cbn zeta.
  rewrite floor_of_seconds by done.
  by rewrite (toString_comp _ _ (rem_of_seconds t Ht)).
Qed.

Lemma formatTime_integer (t : Z) :
  (0 ≤ t ≤ 2 ^ 53)%Z → EventsTimeline.formatTime (inject_Z t) = minutes_seconds t.
Proof.
  intros Ht. unfold EventsTimeline.formatTime, minutes_seconds. cbn zeta.
  unfold JS.floor at 1. rewrite floor_div_60 by done.
  rewrite floor_of_seconds by lia.
  assert (Hm : (0 ≤ t / 60 < 10 ^ 15)%Z).
  { split; [apply Z.div_pos; lia |].
    apply Z.div_lt_upper_bound; [lia |].
    change (2 ^ 53)%Z with 9007199254740992%Z in Ht.
    change (10 ^ 15)%Z with 1000000000000000%Z. lia. }
  pose proof (Z.mod_pos_bound t 60 ltac:(lia)) as Hs.
  rewrite !toString_integer by (change (10 ^ 15)%Z with 1000000000000000%Z in *; lia).
  rewrite pad_two_digits by done.
  by rewrite (string_of_natural (t / 60)) by lia.
Qed.

End Formatters.

(** On a large integer the quotient by 60 is rounded up to the next
    integer before [Math.floor] sees it: 67553994410557496 is a double,
    its sixtieth is 1125899906842624.93..., between the doubles
    1125899906842624.75 and 1125899906842625, and the three formatters
    print the latter. *)
Lemma formatters_round_large_quotients :
  JS.is_double (inject_Z 67553994410557496) = true ∧
  minutes_seconds 67553994410557496 = "1125899906842624:56" ∧
  EventsTimeline.formatTime (inject_Z 67553994410557496) = "1125899906842625:56" ∧
  SignalStrip.formatTime (inject_Z 67553994410557496) = "1125899906842625:56" ∧
  FlightChart.formatter (inject_Z 67553994410557496) = "1125899906842625:56" ∧
  EventsTimeline.formatTime (inject_Z 67553994410557496)
    ≠ minutes_seconds 67553994410557496.
Proof. repeat split; vm_compute; (reflexivity || discriminate). Qed.

(** What the code prints from 10^21 seconds on. *)
Example formatTime_of_huge : EventsTimeline.formatTime (inject_Z (10 ^ 21)) = "16666666666666666000:40".
Proof. vm_compute. reflexivity. Qed.

(** [C10] On every non-negative integer the three time formatters return
    the same string; up to 2^53, where every integer is a double, that
    string is floor(t/60), a colon and t mod 60 on two digits; on a
    number with a fractional part FlightChart's formatter can return a
    different string than the other two, since it keeps the fraction of
    the seconds. *)
Theorem formatters_agree_on_integers :
  (∀ t : Z, 0 ≤ t →
     SignalStrip.formatTime (inject_Z t) = EventsTimeline.formatTime (inject_Z t) ∧
     FlightChart.formatter (inject_Z t) = EventsTimeline.formatTime (inject_Z t)) ∧
  (∀ t : Z, 0 ≤ t ≤ 2 ^ 53 →
     EventsTimeline.formatTime (inject_Z t) = minutes_seconds t ∧
     SignalStrip.formatTime (inject_Z t) = minutes_seconds t ∧
     FlightChart.formatter (inject_Z t) = minutes_seconds t) ∧
  (∃ t : Q,
     JS.is_double t = true ∧
     JS.is_integer t = false ∧
     FlightChart.formatter t ≠ EventsTimeline.formatTime t ∧
     FlightChart.formatter t ≠ SignalStrip.formatTime t).
Proof.
  split; [| split].
  - intros t Ht. split; [reflexivity | by apply formatter_as_formatTime].
  - intros t Ht. split; [| split].
    + by apply formatTime_integer.
    + change (SignalStrip.formatTime (inject_Z t))
        with (EventsTimeline.formatTime (inject_Z t)).
      by apply formatTime_integer.
    + rewrite formatter_as_formatTime by lia. by apply formatTime_integer.
  - exists (181 # 2)%Q. split; [reflexivity |]. split; [reflexivity |].
    split; vm_compute; discriminate.
Qed.

Lemma formatters_agree_on_integers_witness :
  EventsTimeline.formatTime 125 = "2:05" ∧
  SignalStrip.formatTime 125 = "2:05" ∧
  FlightChart.formatter 125 = "2:05".
Proof.
  apply (proj1 (proj2 formatters_agree_on_integers) 125). vm_compute. split; discriminate.
Defined.

(** ** Windowed extraction *)

Lemma in_window_inside (window : Q * Q) (t : Q) :
  SignalStrip.in_window window t = true ↔ inside window t.
Proof.
  unfold SignalStrip.in_window, inside.
  rewrite andb_true_iff, !Qle_bool_iff. reflexivity.
Qed.

Section WindowFilter.

Context {A : Type} (time : A → Q) (window : Q * Q).

Let keep (x : A) : bool := SignalStrip.in_window window (time x).

(** The filter returns the elements inside the window and no others. *)
Lemma window_filter_exact (l : list A) (x : A) :
  x ∈ List.filter keep l ↔ x ∈ l ∧ inside window (time x).
Proof.
  rewrite !list_elem_of_In, filter_In. subst keep. cbn beta.
  by rewrite in_window_inside.
Qed.

(** It keeps them in their order, each as often as it occurs. *)
Lemma window_filter_sublist (l : list A) : sublist (List.filter keep l) l.
Proof.
  induction l as [| x l IH]; simpl; [constructor |].
  destruct (keep x); by constructor.
Qed.

(** Nothing inside the window is dropped: were all elements inside, the
    list would come back whole. *)
Lemma window_filter_all (l : list A) :
  Forall (λ x, inside window (time x)) l → List.filter keep l = l.
Proof.
  induction 1 as [| x l Hx _ IH]; simpl; [reflexivity |].
  subst keep. cbn beta. apply in_window_inside in Hx. by rewrite Hx, IH.
Qed.

End WindowFilter.

Section Maximum.

Import Engine Projector.

Variable signal : CanonicalSample → option Q.

Lemma larger_bounds (a b : Q) :
  (a <= larger a b)%Q ∧ (b <= larger a b)%Q ∧ (larger a b = a ∨ larger a b = b).
Proof.
  unfold larger. destruct (Qle_bool a b) eqn:H.
  - apply Qle_bool_iff in H. repeat split; [done | apply Qle_refl | by right].
  - assert (¬ (a <= b)%Q) by (rewrite <- Qle_bool_iff; congruence).
    repeat split; [apply Qle_refl | lra | by left].
Qed.

Lemma maximum_snoc (l : list CanonicalSample) (s : CanonicalSample) :
  maximum signal (l ++ [s]) =
    match signal s, maximum signal l with
    | Some v, Some m => Some (larger m v)
    | Some v, None => Some v
    | None, best => best
    end.
Proof.
  unfold maximum. rewrite foldl_app. cbn.
  destruct (signal s); reflexivity.
Qed.

(** The running maximum is a value one of the samples carries and no
    sample exceeds. *)
Lemma maximum_greatest (l : list CanonicalSample) :
  match maximum signal l with
  | Some v =>
      (∃ s, s ∈ l ∧ signal s = Some v) ∧
      (∀ s w, s ∈ l → signal s = Some w → (w <= v)%Q)
  | None => ∀ s, s ∈ l → signal s = None
  end.
Proof.
  induction l as [| x l IH] using rev_ind.
  - cbn. intros s Hs. by apply not_elem_of_nil in Hs.
  - rewrite maximum_snoc.
    destruct (signal x) as [v |] eqn:Hx, (maximum signal l) as [m |].
    + destruct IH as [(s0 & Hs0 & Hv0) Hle].
      destruct (larger_bounds m v) as (Hm & Hv & [Heq | Heq]).
      * split.
        -- exists s0. rewrite Heq. split; [| done].
           apply elem_of_app. by left.
        -- intros s w [Hs | Hs]%elem_of_app Hw.
           ++ specialize (Hle s w Hs Hw). lra.
           ++ apply list_elem_of_singleton in Hs. subst s.
              rewrite Hx in Hw. injection Hw as <-. done.
      * split.
        -- exists x. rewrite Heq. split; [| done].
           apply elem_of_app. right. by apply list_elem_of_singleton.
        -- intros s w [Hs | Hs]%elem_of_app Hw.
           ++ specialize (Hle s w Hs Hw). lra.
           ++ apply list_elem_of_singleton in Hs. subst s.
              rewrite Hx in Hw. injection Hw as <-. done.
    + split.
      * exists x. split; [| done].
        apply elem_of_app. right. by apply list_elem_of_singleton.
      * intros s w [Hs | Hs]%elem_of_app Hw.
        -- rewrite (IH s Hs) in Hw. discriminate.
        -- apply list_elem_of_singleton in Hs. subst s.
           rewrite Hx in Hw. injection Hw as <-. apply Qle_refl.
    + destruct IH as [(s0 & Hs0 & Hv0) Hle]. split.
      * exists s0. split; [| done]. apply elem_of_app. by left.
      * intros s w [Hs | Hs]%elem_of_app Hw.
        -- by apply (Hle s w).
        -- apply list_elem_of_singleton in Hs. subst s. congruence.
    + intros s [Hs | Hs]%elem_of_app.
      * by apply IH.
      * apply list_elem_of_singleton in Hs. by subst s.
Qed.

Lemma windowed_maximum_greatest (window : Q * Q) (samples : list CanonicalSample) :
  greatest_within window signal samples
    (maximum signal (windowed_samples window samples)).
Proof.
  unfold greatest_within, windowed_samples.
  pose proof (maximum_greatest
                (List.filter (λ s, SignalStrip.in_window window (cs_time_seconds s)) samples))
    as H.
  destruct (maximum signal _) as [v |].
  - destruct H as [(s0 & Hs0 & Hv0) Hle].
    apply (window_filter_exact cs_time_seconds) in Hs0 as [Hin Hw].
    split.
    + by exists s0.
    + intros s w Hs Hins Hsw. apply (Hle s w); [| done].
      by apply (window_filter_exact cs_time_seconds).
  - intros s Hs Hins. apply H.
    by apply (window_filter_exact cs_time_seconds).
Qed.

End Maximum.

(** [C1] For every window and every sequence of time-indexed records the
    windowed extraction returns the elements whose time_seconds lies
    between the two bounds, both included, and no others (for the merged
    points of SignalStrip, for the RuleEvents and the Events), in their
    order; and each max value of the Summary scoped to the window is the
    maximum taken over the samples of that window only. *)
Theorem windowed_extraction_exact (window : Q * Q) :
  (∀ (merged : list SignalMatrixPoint) (p : SignalMatrixPoint),
      p ∈ SignalStrip.filtered merged window
      ↔ p ∈ merged ∧ inside window (smp_time_seconds p)) ∧
  (∀ merged : list SignalMatrixPoint,
      sublist (SignalStrip.filtered merged window) merged) ∧
  (∀ (events : list RuleEvent) (e : RuleEvent),
      e ∈ Projector.windowed_rule_events window events
      ↔ e ∈ events ∧ inside window (re_time_seconds e)) ∧
  (∀ (events : list FlightEvent) (e : FlightEvent),
      e ∈ Projector.windowed_events window events
      ↔ e ∈ events ∧ inside window (fe_time_seconds e)) ∧
  (∀ samples : list Engine.CanonicalSample,
      let scoped := Projector.windowed_maxima window samples in
      greatest_within window Engine.altitude_ft samples (Projector.mx_altitude_ft scoped) ∧
      greatest_within window Engine.airspeed_kt samples (Projector.mx_airspeed_kt scoped) ∧
      greatest_within window Engine.bank_magnitude samples (Projector.mx_bank_angle_deg scoped) ∧
      greatest_within window Engine.g_normal samples (Projector.mx_positive_g scoped)).
Proof.
  split; [| split; [| split; [| split]]].
  - intros merged p. apply (window_filter_exact smp_time_seconds).
  - intros merged. apply (window_filter_sublist smp_time_seconds).
  - intros events e. apply (window_filter_exact re_time_seconds).
  - intros events e. apply (window_filter_exact fe_time_seconds).
  - intros samples scoped. subst scoped.
    unfold Projector.windowed_maxima, Projector.maxima.
    cbn [Projector.mx_altitude_ft Projector.mx_airspeed_kt
         Projector.mx_bank_angle_deg Projector.mx_positive_g].
    repeat split; apply windowed_maximum_greatest.
Qed.

Lemma windowed_extraction_exact_witness :
  sample_rule_event ∈ Projector.windowed_rule_events (60, 120)%Q
                        [early_rule_event; sample_rule_event; late_rule_event] ∧
  late_rule_event ∉ Projector.windowed_rule_events (60, 120)%Q
                      [early_rule_event; sample_rule_event; late_rule_event].
Proof.
  split.
  - apply (proj1 (proj2 (proj2 (windowed_extraction_exact (60, 120)%Q)))).
    split.
    + apply list_elem_of_further, list_elem_of_here.
    + split; vm_compute; discriminate.
  - intros H.
    apply (proj1 (proj2 (proj2 (windowed_extraction_exact (60, 120)%Q)))) in H.
    destruct H as [_ [_ H]]. vm_compute in H. by apply H.
Defined.


(** ** SignalStrip: the merged points *)

Section Merged.

Import SignalStrip.

Lemma riskLookup_snoc (risk : list RiskPoint) (point : RiskPoint) :
  riskLookup (risk ++ [point])
  = <[tenth_key (rp_time_seconds point) := hf_index point]> (riskLookup risk).
Proof. unfold riskLookup. by rewrite foldl_app. Qed.

(** No RiskPoint with the key: the lookup finds nothing. *)
Lemma riskLookup_none (risk : list RiskPoint) (k : Qc) :
  riskLookup risk !! k = None
  ↔ ∀ point, point ∈ risk → tenth_key (rp_time_seconds point) ≠ k.
Proof.
  induction risk as [| x risk IH] using rev_ind.
  - split; [| done]. intros _ point H. by apply not_elem_of_nil in H.
  - rewrite riskLookup_snoc, lookup_insert_None, IH. split.
    + intros [Hall Hx] point [H | H]%elem_of_app; [by apply Hall |].
      apply list_elem_of_singleton in H. by subst.
    + intros H. split.
      * intros point Hp. apply H, elem_of_app. by left.
      * apply H, elem_of_app. right. by apply list_elem_of_singleton.
Qed.

(** Several RiskPoints with the key: the last one is found. *)
Lemma riskLookup_last (before after : list RiskPoint) (point : RiskPoint) :
  (∀ q, q ∈ after → tenth_key (rp_time_seconds q) ≠ tenth_key (rp_time_seconds point)) →
  riskLookup (before ++ point :: after) !! tenth_key (rp_time_seconds point)
  = Some (hf_index point).
Proof.
  induction after as [| x after IH] using rev_ind; intros Hafter.
  - rewrite riskLookup_snoc. apply lookup_insert_eq.
  - replace (before ++ point :: after ++ [x])
      with ((before ++ point :: after) ++ [x]) by by rewrite <- app_assoc.
    rewrite riskLookup_snoc, lookup_insert_ne.
    + apply IH. intros q Hq. apply Hafter, elem_of_app. by left.
    + apply Hafter, elem_of_app. right. by apply list_elem_of_singleton.
Qed.

End Merged.

(** A signal-matrix point at a time no RiskPoint covers: its merged
    record carries hf_index 0, the missing value replaced by zero. *)
Lemma merged_fills_missing_risk_with_zero :
  smp_signals <$> SignalStrip.merged [point_at_5] [risk_at_4]
    = [ <["hf_index" := 0%Q]> (smp_signals point_at_5) ] ∧
  ¬ missing_risk_stays_absent [point_at_5] [risk_at_4].
Proof.
  split; [vm_compute; reflexivity |].
  intros H.
  specialize (H 0%nat point_at_5
                (SignalStrip.merge_point (SignalStrip.riskLookup [risk_at_4]) point_at_5)
                eq_refl eq_refl).
  assert (Hnone : SignalStrip.riskLookup [risk_at_4]
                    !! SignalStrip.tenth_key (smp_time_seconds point_at_5) = None)
    by (vm_compute; reflexivity).
  specialize (H Hnone). vm_compute in H. discriminate.
Qed.

(** [C4] Every merged point of SignalStrip keeps the time and all the
    signals of its signal-matrix point, an absent signal staying absent;
    only hf_index is set: to the value of the RiskPoint whose time rounds
    to the same tenth of a second, or to 0 when there is no such
    RiskPoint. *)
Theorem merged_keeps_signals_and_defaults_risk
    (data : list SignalMatrixPoint) (risk : list RiskPoint) :
  length (SignalStrip.merged data risk) = length data ∧
  ∀ (i : nat) (point : SignalMatrixPoint),
    data !! i = Some point →
    ∃ m,
      SignalStrip.merged data risk !! i = Some m ∧
      smp_time_seconds m = smp_time_seconds point ∧
      (∀ key, key ≠ "hf_index" → smp_signals m !! key = smp_signals point !! key) ∧
      ((∀ rp, rp ∈ risk →
            SignalStrip.tenth_key (rp_time_seconds rp)
            ≠ SignalStrip.tenth_key (smp_time_seconds point)) →
         smp_signals m !! "hf_index" = Some 0%Q) ∧
      (∀ before rp after,
          risk = before ++ rp :: after →
          SignalStrip.tenth_key (rp_time_seconds rp)
            = SignalStrip.tenth_key (smp_time_seconds point) →
          (∀ q, q ∈ after →
             SignalStrip.tenth_key (rp_time_seconds q)
             ≠ SignalStrip.tenth_key (smp_time_seconds point)) →
          smp_signals m !! "hf_index" = Some (hf_index rp)).
Proof.
  unfold SignalStrip.merged. split; [apply length_map |].
  intros i point Hi.
  exists (SignalStrip.merge_point (SignalStrip.riskLookup risk) point).
  split; [by rewrite list_lookup_fmap, Hi |].
  split; [reflexivity |].
  cbn [SignalStrip.merge_point smp_signals].
  split; [| split].
  - intros key Hkey. by rewrite lookup_insert_ne.
  - intros Hnone. rewrite lookup_insert_eq.
    apply riskLookup_none in Hnone. by rewrite Hnone.
  - intros before rp after -> Hkey Hafter. rewrite lookup_insert_eq.
    rewrite <- Hkey, riskLookup_last; [done |].
    intros q Hq. rewrite Hkey. by apply Hafter.
Qed.

Lemma merged_keeps_signals_and_defaults_risk_witness :
  ∃ m,
    SignalStrip.merged [point_at_5] [risk_at_4] !! 0%nat = Some m ∧
    smp_signals m !! "altitude_ft" = Some 1000%Q ∧
    smp_signals m !! "airspeed_kt" = None ∧
    smp_signals m !! "hf_index" = Some 0%Q.
Proof.
  destruct (proj2 (merged_keeps_signals_and_defaults_risk [point_at_5] [risk_at_4])
              0%nat point_at_5 eq_refl)
    as (m & Hm & _ & Hkeep & Hzero & _).
  exists m. split; [exact Hm |].
  split; [by rewrite Hkeep |].
  split; [by rewrite Hkeep |].
  apply Hzero. intros rp Hrp Hkey.
  apply list_elem_of_singleton in Hrp. subst rp.
  apply (f_equal this) in Hkey. vm_compute in Hkey. discriminate.
Defined.


(** ** Detectors: one event per excursion *)

Section DetectorFacts.

Import Engine.

Context {Sample Value Out : Type}.
Variable time : Sample → Q.
Variable reading : Sample → option Value.
Variable beyond : Value → bool.
Variable dwell : Q.
Variable report : Q → Value → Out.

Local Abbreviation step := (step time reading beyond dwell report).
Local Abbreviation emissions := (emissions time reading beyond dwell report).
Local Abbreviation phase_after := (phase_after time reading beyond dwell report).
Local Abbreviation fired := (fired time reading beyond dwell report).


Lemma phase_after_app (ph : Phase) (l1 l2 : list Sample) :
  phase_after ph (l1 ++ l2) = phase_after (phase_after ph l1) l2.
Proof.
  revert ph. induction l1 as [| s l1 IH]; intros ph; simpl; [reflexivity |].
  by rewrite IH.
Qed.


(** What the sample at position [i] makes the detector emit. *)
Lemma emissions_lookup (ph : Phase) (l : list Sample) (i : nat) (s : Sample) :
  l !! i = Some s →
  emissions ph l !! i = Some (snd (step (phase_after ph (take i l)) s)).
Proof.
  revert ph i. induction l as [| x l IH]; intros ph i Hi; [done |].
  destruct i as [| i]; simpl in *.
  - by injection Hi as ->.
  - by apply IH.
Qed.


(** The step on a sample that carries the signal. *)
Lemma step_reading (ph : Phase) (s : Sample) (v : Value) :
  reading s = Some v →
  step ph s =
    if beyond v then
      match ph with
      | TRIGGERED => (TRIGGERED, None)
      | _ =>
          let onset := match ph with PENDING t0 => t0 | _ => time s end in
          if Qle_bool dwell (time s - onset)
          then (TRIGGERED, Some (report onset v))
          else (PENDING onset, None)
      end
    else (ARMED, None).
Proof. unfold Engine.step. by intros ->. Qed.

Lemma step_missing (ph : Phase) (s : Sample) :
  reading s = None → step ph s = (ph, None).
Proof. unfold Engine.step. by intros ->. Qed.


(** A sample that does not show the signal beyond the threshold emits
    nothing. *)
Lemma step_quiet (ph : Phase) (s : Sample) :
  exceeds reading beyond s = false → snd (step ph s) = None.
Proof.
  unfold exceeds. destruct (reading s) as [v |] eqn:Hr.
  - intros Hv. by rewrite (step_reading ph s v Hr), Hv.
  - intros _. by rewrite step_missing.
Qed.












(** A detector without dwell time is armed or triggered, never
    pending. *)
Lemma no_dwell_no_pending (ph : Phase) (l : list Sample) :
  (dwell <= 0)%Q →
  ph = ARMED ∨ ph = TRIGGERED →
  phase_after ph l = ARMED ∨ phase_after ph l = TRIGGERED.
Proof.
  intros Hdwell. revert ph. induction l as [| s l IH]; intros ph Hph; [done |].
  cbn [Engine.phase_after]. apply IH. unfold Engine.step.
  destruct (reading s) as [v |]; [| done].
  destruct (beyond v); [| by left].
  destruct Hph as [-> | ->]; [| by right].
  cbn zeta.
  assert (H : Qle_bool dwell (time s - time s) = true) by (apply Qle_bool_iff; lra).
  rewrite H. by right.
Qed.



Lemma step_triggered_silent (s : Sample) : snd (step TRIGGERED s) = None.
Proof.
  destruct (reading s) as [v |] eqn:Hr.
  - rewrite (step_reading _ s v Hr). by destruct (beyond v).
  - by rewrite step_missing.
Qed.


Lemma latest_reading_snoc (l : list Sample) (s : Sample) :
  latest_reading reading (l ++ [s]) =
    match reading s with
    | Some v => Some v
    | None => latest_reading reading l
    end.
Proof.
  unfold latest_reading. rewrite omap_app. cbn.
  destruct (reading s); [apply last_snoc | by rewrite app_nil_r].
Qed.

(** A detector is armed exactly when the signal has not been read yet or
    its latest value was within the threshold. *)
Lemma armed_iff_below_before (earlier : list Sample) :
  phase_after ARMED earlier = ARMED ↔ below_before reading beyond earlier = true.
Proof.
  induction earlier as [| s l IH] using rev_ind; [done |].
  unfold below_before in *. rewrite phase_after_app, latest_reading_snoc.
  cbn [Engine.phase_after].
  destruct (reading s) as [v |] eqn:Hr.
  - rewrite (step_reading _ s v Hr). destruct (beyond v); [| done].
    cbn. split; [| done].
    destruct (phase_after ARMED l); cbn zeta; try done;
      case_Qle_bool; done.
  - by rewrite step_missing.
Qed.

End DetectorFacts.

(** A single sample above the threshold, with a dwell time of three
    seconds, is no sustained excursion: no STEEP_TURN Event. *)
Example brief_excursion_is_no_steep_turn :
  Engine.steep_turns 45 3 (λ _, warning) [level_at_0; banked_at_1; level_at_2] = [].
Proof. vm_compute. reflexivity. Qed.




(** ** G_EXCEEDANCE: behaviour at the edges of the threshold *)

Section GLoad.

Import Engine.

Variables limit_positive limit_negative : Q.

Local Abbreviation limit := (g_limit limit_positive limit_negative).
Local Abbreviation g_step :=
  (step cs_time_seconds g_normal (g_beyond limit_positive limit_negative) 0
     (g_event limit_positive limit_negative)).

Lemma g_beyond_iff (g : Q) :
  g_beyond limit_positive limit_negative g = true ↔ (limit g < Qabs g)%Q.
Proof.
  unfold g_beyond. rewrite negb_true_iff.
  destruct (Qle_bool (Qabs g) (limit g)) eqn:H.
  - apply Qle_bool_iff in H. split; [done | lra].
  - split; [intros _ | done].
    apply Qnot_le_lt. rewrite <- Qle_bool_iff. congruence.
Qed.

Lemma g_severity_warning (g : Q) :
  g_severity limit_positive limit_negative g = warning
  ↔ (Qabs g < limit g * (11 # 10))%Q.
Proof.
  unfold g_severity.
  destruct (Qle_bool (limit g * (11 # 10)) (Qabs g)) eqn:H.
  - apply Qle_bool_iff in H. split; [done | lra].
  - split; [intros _ | done].
    apply Qnot_le_lt. rewrite <- Qle_bool_iff. congruence.
Qed.

Lemma g_severity_critical (g : Q) :
  g_severity limit_positive limit_negative g = critical
  ↔ (limit g * (11 # 10) <= Qabs g)%Q.
Proof.
  unfold g_severity.
  destruct (Qle_bool (limit g * (11 # 10)) (Qabs g)) eqn:H.
  - apply Qle_bool_iff in H. done.
  - split; [done |]. rewrite <- Qle_bool_iff. congruence.
Qed.

(** Whatever an exceedance detector emits on a sample reports that
    sample's G value, graded by it. *)
Lemma g_step_emits (ph : Phase) (s : CanonicalSample) (g : Q) (e : Event) :
  g_normal s = Some g →
  snd (g_step ph s) = Some e →
  g_beyond limit_positive limit_negative g = true ∧
  ev_type e = G_EXCEEDANCE ∧ ev_value e = g ∧
  ev_severity e = g_severity limit_positive limit_negative g.
Proof.
  intros Hg. rewrite (step_reading _ _ _ _ _ ph s g Hg).
  destruct (g_beyond limit_positive limit_negative g); [| done].
  destruct ph; cbn zeta; try done;
    case_Qle_bool;
    cbn [snd]; try done; by intros [= <-].
Qed.

(** An armed exceedance detector fires on the first value beyond the
    limit, there being no dwell time. *)
Lemma g_step_armed (s : CanonicalSample) (g : Q) :
  g_normal s = Some g →
  g_beyond limit_positive limit_negative g = true →
  snd (g_step ARMED s) = Some (g_event limit_positive limit_negative (cs_time_seconds s) g).
Proof.
  intros Hg Hb. rewrite (step_reading _ _ _ _ _ ARMED s g Hg), Hb. cbn zeta.
  assert (H : Qle_bool 0 (cs_time_seconds s - cs_time_seconds s) = true)
    by (apply Qle_bool_iff; lra).
  by rewrite H.
Qed.

(** Inside an exceedance the detector is triggered. *)
Lemma g_triggered_inside (earlier_samples : list CanonicalSample) :
  below_before g_normal (g_beyond limit_positive limit_negative) earlier_samples = false →
  phase_after cs_time_seconds g_normal (g_beyond limit_positive limit_negative) 0
    (g_event limit_positive limit_negative) ARMED earlier_samples = TRIGGERED.
Proof.
  intros Hinside.
  destruct (no_dwell_no_pending cs_time_seconds g_normal
              (g_beyond limit_positive limit_negative) 0
              (g_event limit_positive limit_negative) ARMED earlier_samples)
    as [Harmed | Htriggered]; [lra | by left | | done].
  apply armed_iff_below_before in Harmed. congruence.
Qed.

End GLoad.

(** Two consecutive G values beyond a limit of 4, the first by 5%, the
    second by 12.5%: one exceedance, hence one Event, and it is a
    warning.  The second value has no Event of its own and the flight has
    no critical Event at all. *)
Lemma continued_exceedance_emits_nothing :
  Engine.g_normal banked_at_4 = Some (9 # 2)%Q ∧
  (Engine.g_limit 4 2 (9 # 2) * (11 # 10) <= Qabs (9 # 2))%Q ∧
  Engine.g_emissions 4 2 Engine.ARMED g_flight !! 4%nat = Some None ∧
  Engine.g_exceedances 4 2 g_flight
  = [ {| Engine.ev_type := Engine.G_EXCEEDANCE; Engine.ev_time_seconds := 3;
         Engine.ev_severity := warning; Engine.ev_value := 21 # 5 |} ] ∧
  ¬ every_g_value_has_its_event 4 2 g_flight.
Proof.
  split; [reflexivity |]. split; [vm_compute; discriminate |].
  split; [reflexivity |]. split; [reflexivity |].
  intros Hall.
  destruct (Hall banked_at_4 (9 # 2)%Q) as [_ Hcritical]; [| reflexivity |].
  { unfold g_flight. by repeat (apply list_elem_of_here || apply list_elem_of_further). }
  destruct Hcritical as (e & He & Hsev); [vm_compute; discriminate |].
  change (Engine.g_exceedances 4 2 g_flight)
    with [ {| Engine.ev_type := Engine.G_EXCEEDANCE; Engine.ev_time_seconds := 3;
              Engine.ev_severity := warning; Engine.ev_value := 21 # 5 |} ] in He.
  apply list_elem_of_singleton in He. subst e. discriminate.
Qed.

(** [C2] In every sample sequence a G value exactly at the type-rated
    limit produces no G_EXCEEDANCE Event; a value beyond the limit by less
    than 10% that begins an exceedance produces one with severity warning,
    and a value at or beyond 10% above the limit that begins an exceedance
    produces one with severity critical; a value that continues an
    exceedance produces none of its own; whatever Event a sample produces
    is graded by that sample's value in this way. *)
Theorem g_exceedance_threshold_edges
    (limit_positive limit_negative : Q)
    (samples : list Engine.CanonicalSample) (i : nat)
    (s : Engine.CanonicalSample) (g : Q) :
  (0 < limit_positive)%Q → (0 < limit_negative)%Q →
  samples !! i = Some s →
  Engine.g_normal s = Some g →
  let limit := Engine.g_limit limit_positive limit_negative g in
  let emitted :=
    Engine.g_emissions limit_positive limit_negative Engine.ARMED samples !! i in
  let event_of (severity : Severity) :=
    {| Engine.ev_type := Engine.G_EXCEEDANCE;
       Engine.ev_time_seconds := Engine.cs_time_seconds s;
       Engine.ev_severity := severity;
       Engine.ev_value := g |} in
  (Qabs g == limit → emitted = Some None) ∧
  (Engine.below_before Engine.g_normal
     (Engine.g_beyond limit_positive limit_negative) (take i samples) = true →
     (limit < Qabs g ∧ Qabs g < limit * (11 # 10) →
        emitted = Some (Some (event_of warning)))%Q ∧
     (limit * (11 # 10) <= Qabs g →
        emitted = Some (Some (event_of critical)))%Q) ∧
  (Engine.below_before Engine.g_normal
     (Engine.g_beyond limit_positive limit_negative) (take i samples) = false →
     emitted = Some None) ∧
  (∀ e, emitted = Some (Some e) →
        Engine.ev_type e = Engine.G_EXCEEDANCE ∧
        Engine.ev_value e = g ∧
        (limit < Qabs g)%Q ∧
        (Engine.ev_severity e = warning ↔ (Qabs g < limit * (11 # 10))%Q) ∧
        (Engine.ev_severity e = critical ↔ (limit * (11 # 10) <= Qabs g)%Q)).
Proof.
  intros Hpos Hneg Hs Hg limit emitted event_of.
  assert (Hlimit : (0 < limit)%Q).
  { subst limit. unfold Engine.g_limit. by destruct (Qle_bool 0 g). }
  subst emitted. unfold Engine.g_emissions.
  rewrite (emissions_lookup _ _ _ _ _ _ _ _ _ Hs).
  split; [| split; [| split]].
  - intros Heq. f_equal. apply step_quiet. unfold Engine.exceeds. rewrite Hg.
    apply not_true_is_false. rewrite g_beyond_iff. fold limit. lra.
  - intros Harmed.
    apply (armed_iff_below_before Engine.cs_time_seconds Engine.g_normal
             (Engine.g_beyond limit_positive limit_negative) 0%Q
             (Engine.g_event limit_positive limit_negative)) in Harmed.
    rewrite Harmed.
    split.
    + intros [Hbeyond Hless]. rewrite (g_step_armed _ _ s g Hg).
      * unfold Engine.g_event.
        by rewrite (proj2 (g_severity_warning limit_positive limit_negative g) Hless).
      * by apply g_beyond_iff.
    + intros Hmore. rewrite (g_step_armed _ _ s g Hg).
      * unfold Engine.g_event.
        by rewrite (proj2 (g_severity_critical limit_positive limit_negative g) Hmore).
      * apply g_beyond_iff. fold limit. lra.
  - intros Hinside. rewrite (g_triggered_inside _ _ _ Hinside).
    f_equal. apply step_triggered_silent.
  - intros e [= He].
    apply (g_step_emits _ _ _ s g e Hg) in He as (Hb & Hty & Hv & Hsev).
    apply g_beyond_iff in Hb. rewrite Hsev.
    split; [done |]. split; [done |]. split; [done |].
    split; [apply g_severity_warning | apply g_severity_critical].
Qed.

Lemma g_exceedance_threshold_edges_witness :
  Engine.g_emissions 4 2 Engine.ARMED g_flight !! 1%nat = Some None ∧
  Engine.g_emissions 4 2 Engine.ARMED g_flight !! 3%nat
    = Some (Some {| Engine.ev_type := Engine.G_EXCEEDANCE;
                    Engine.ev_time_seconds := 3;
                    Engine.ev_severity := warning;
                    Engine.ev_value := 21 # 5 |}) ∧
  Engine.g_emissions 4 2 Engine.ARMED [level_at_0; banked_at_4] !! 1%nat
    = Some (Some {| Engine.ev_type := Engine.G_EXCEEDANCE;
                    Engine.ev_time_seconds := 4;
                    Engine.ev_severity := critical;
                    Engine.ev_value := 9 # 2 |}).
Proof.
  split; [| split].
  - destruct (g_exceedance_threshold_edges 4 2 g_flight 1 banked_at_1 4
                eq_refl eq_refl eq_refl eq_refl) as (Hat & _ & _ & _).
    apply Hat. reflexivity.
  - destruct (g_exceedance_threshold_edges 4 2 g_flight 3 banked_at_3 (21 # 5)
                eq_refl eq_refl eq_refl eq_refl) as (_ & Hedge & _ & _).
    apply Hedge; [reflexivity |]. split; reflexivity.
  - destruct (g_exceedance_threshold_edges 4 2 [level_at_0; banked_at_4] 1 banked_at_4 (9 # 2)
                eq_refl eq_refl eq_refl eq_refl) as (_ & Hedge & _ & _).
    apply Hedge; [reflexivity |]. vm_compute. discriminate.
Defined.


(** ** useAiConsole *)

(** [C8] A command submitted with a Summary present and a non-blank text
    sends exactly one request, carrying the command, the bounds of the
    window given (absent when no window is given), the Summary of the
    whole flight and the complete list of RuleEvents; with no Summary or
    a blank command nothing is sent and the hook state, the log included,
    stays as it was. *)
Theorem run_command_sends_one_request
    (summary : option FlightSummary) (ruleEvents : list RuleEvent)
    (command : string) (window : option useAiConsole.CommandWindow)
    (env : useAiConsole.Surroundings) (s : useAiConsole.ConsoleState) :
  (∀ summary',
      summary = Some summary' → useAiConsole.blank command = false →
      useAiConsole.requests (useAiConsole.runCommand summary ruleEvents command window env s) =
        [ {| useAiConsole.req_command := command;
             useAiConsole.window_start := useAiConsole.cw_start <$> window;
             useAiConsole.window_end := useAiConsole.cw_end <$> window;
             useAiConsole.req_summary := summary';
             useAiConsole.req_rule_events := ruleEvents;
             useAiConsole.context_notes := None |} ]) ∧
  (summary = None ∨ useAiConsole.blank command = true →
      useAiConsole.requests (useAiConsole.runCommand summary ruleEvents command window env s) = [] ∧
      useAiConsole.after (useAiConsole.runCommand summary ruleEvents command window env s) = s).
Proof.
  unfold useAiConsole.runCommand. split.
  - intros summary' -> Hb. rewrite Hb. reflexivity.
  - intros [-> | Hb]; [done |].
    destruct summary; [| done]. rewrite Hb. done.
Qed.

Lemma run_command_sends_one_request_witness :
  useAiConsole.requests
    (useAiConsole.runCommand (Some (ar_summary sample_response)) [sample_rule_event]
       "Explain HF spike" (Some sample_window) sample_surroundings sample_console)
  = [ {| useAiConsole.req_command := "Explain HF spike";
         useAiConsole.window_start := Some 60%Q;
         useAiConsole.window_end := Some 120%Q;
         useAiConsole.req_summary := ar_summary sample_response;
         useAiConsole.req_rule_events := [sample_rule_event];
         useAiConsole.context_notes := None |} ]
  ∧ (useAiConsole.requests
       (useAiConsole.runCommand (Some (ar_summary sample_response)) [sample_rule_event]
          "  " (Some sample_window) sample_surroundings sample_console) = []
     ∧ useAiConsole.after
         (useAiConsole.runCommand (Some (ar_summary sample_response)) [sample_rule_event]
            "  " (Some sample_window) sample_surroundings sample_console) = sample_console).
Proof.
  split.
  - apply (run_command_sends_one_request (Some (ar_summary sample_response))
             [sample_rule_event] "Explain HF spike" (Some sample_window)
             sample_surroundings sample_console);
      reflexivity.
  - apply (run_command_sends_one_request (Some (ar_summary sample_response))
             [sample_rule_event] "  " (Some sample_window)
             sample_surroundings sample_console).
    right. reflexivity.
Defined.

(** As App wires the hook, the Summary sent is the one of the whole
    flight and the RuleEvents are all those of the analysis, whatever the
    window. *)
Lemma console_request_carries_whole_flight
    (r : AnalysisResponse) (command : string) (window : option useAiConsole.CommandWindow)
    (env : useAiConsole.Surroundings) (s : useAiConsole.ConsoleState) :
  useAiConsole.blank command = false →
  ∃ request,
    useAiConsole.requests
      (useAiConsole.runCommand (useAiConsole.console_summary (Some r))
         (useAiConsole.console_rule_events (Some r)) command window env s) = [request] ∧
    useAiConsole.req_summary request = ar_summary r ∧
    useAiConsole.req_rule_events request = rule_events r.
Proof.
  intros Hb. unfold useAiConsole.runCommand. cbn. rewrite Hb. by eexists.
Qed.

(** Whether it succeeds or fails, the request leaves one entry in the log
    and the hook no longer pending. *)
Lemma run_command_logs_one_entry
    (summary : FlightSummary) (ruleEvents : list RuleEvent)
    (command : string) (window : option useAiConsole.CommandWindow)
    (env : useAiConsole.Surroundings) (s : useAiConsole.ConsoleState) :
  useAiConsole.blank command = false →
  useAiConsole.after (useAiConsole.runCommand (Some summary) ruleEvents command window env s)
  = {| useAiConsole.logs := useAiConsole.logs s ++ [useAiConsole.log_entry command env];
       useAiConsole.pending := false |}.
Proof. intros Hb. unfold useAiConsole.runCommand. by rewrite Hb. Qed.

(** Trimming twice removes nothing more at the start. *)
Lemma trimStart_from_idempotent (skip : nat) (s : string) :
  useAiConsole.trimStart (useAiConsole.trimStart_from skip s) = useAiConsole.trimStart_from skip s.
Proof.
  revert skip. induction s as [| c rest IH]; intros skip; [reflexivity |].
  cbn [useAiConsole.trimStart_from]. destruct skip as [| k]; [| apply IH].
  destruct (useAiConsole.white_width (String c rest)) as [| k] eqn:Hw; [| apply IH].
  unfold useAiConsole.trimStart. cbn [useAiConsole.trimStart_from]. by rewrite Hw.
Qed.

(** A blank command is one that white space alone makes up: nothing is
    left once the leading white space is removed. *)
Lemma blank_iff_all_white (command : string) :
  useAiConsole.blank command = true ↔ useAiConsole.trimStart command = EmptyString.
Proof.
  unfold useAiConsole.blank, useAiConsole.trim, useAiConsole.trimStart.
  pose proof (trimStart_from_idempotent 0 command) as Hid.
  unfold useAiConsole.trimStart in Hid.
  destruct (useAiConsole.trimStart_from 0 command) as [| c rest] eqn:Ht; [done |].
  cbn [useAiConsole.trimEnd]. unfold useAiConsole.trimStart. rewrite Hid. done.
Qed.

(** ** useFlightAnalysis *)

Section AnalyzeRun.

Import useFlightAnalysis.

Lemma observe_app (us vs : list (HookState → HookState)) (s : HookState) :
  observe (us ++ vs) s = observe us s ++ observe vs (foldl (λ st u, u st) s us).
Proof.
  revert s. induction us as [| u us IH]; intros s; simpl; [reflexivity |].
  by rewrite IH.
Qed.

Lemma last_cons_default {A : Type} (l : list A) (a d : A) :
  List.last (a :: l) d = List.last l a.
Proof.
  revert a d. induction l as [| b l IH]; intros a d; [reflexivity |].
  change (List.last (b :: l) d = List.last (b :: l) a).
  by rewrite !IH.
Qed.

(** Reporting progress touches the progress cell only. *)
Lemma progress_reports_keep (l : list Z) (s : HookState) :
  result (foldl (λ st u, u st) s (map setProgress l)) = result s ∧
  status (foldl (λ st u, u st) s (map setProgress l)) = status s ∧
  error_message (foldl (λ st u, u st) s (map setProgress l)) = error_message s ∧
  progress (foldl (λ st u, u st) s (map setProgress l)) = List.last l (progress s).
Proof.
  revert s. induction l as [| p l IH]; intros s; [done |].
  cbn [map foldl].
  destruct (IH (setProgress p s)) as (Hr & Hs & He & Hp).
  rewrite Hr, Hs, He, Hp, last_cons_default. done.
Qed.

Lemma progress_reports_observed (l : list Z) (s st : HookState) :
  st ∈ observe (map setProgress l) s → result st = result s.
Proof.
  revert s. induction l as [| p l IH]; intros s; simpl.
  - intros H. by apply not_elem_of_nil in H.
  - intros [-> | H]%elem_of_cons; [reflexivity |].
    by rewrite (IH _ H).
Qed.

End AnalyzeRun.

(** The final state of a call, by how the upload settles. *)
Lemma analyze_all_or_nothing_parts
    (upload : useFlightAnalysis.Upload) (s : useFlightAnalysis.HookState) :
  (∀ response,
      useFlightAnalysis.settled upload = inr response →
      useFlightAnalysis.result (useFlightAnalysis.analyze upload s) = Some response ∧
      useFlightAnalysis.status (useFlightAnalysis.analyze upload s) = useFlightAnalysis.ready ∧
      useFlightAnalysis.error_message (useFlightAnalysis.analyze upload s) = None) ∧
  (∀ err,
      useFlightAnalysis.settled upload = inl err →
      useFlightAnalysis.result (useFlightAnalysis.analyze upload s) = useFlightAnalysis.result s ∧
      useFlightAnalysis.status (useFlightAnalysis.analyze upload s) = useFlightAnalysis.error ∧
      useFlightAnalysis.error_message (useFlightAnalysis.analyze upload s)
        = Some (useFlightAnalysis.failure_text err) ∧
      useFlightAnalysis.progress (useFlightAnalysis.analyze upload s)
        = List.last (useFlightAnalysis.reported upload) 0).
Proof.
  unfold useFlightAnalysis.analyze, useFlightAnalysis.analyze_updates.
  set (s0 := foldl (λ st u, u st) s
               [useFlightAnalysis.setError None; useFlightAnalysis.setProgress 0;
                useFlightAnalysis.setStatus useFlightAnalysis.uploading]).
  assert (Hs0 : useFlightAnalysis.result s0 = useFlightAnalysis.result s
                ∧ useFlightAnalysis.progress s0 = 0) by done.
  destruct Hs0 as [Hr0 Hp0].
  destruct (progress_reports_keep (useFlightAnalysis.reported upload) s0)
    as (Hr & Hs & He & Hp).
  rewrite Hr0 in Hr. rewrite Hp0 in Hp.
  split.
  - intros response Hok. rewrite !foldl_app. fold s0.
    set (s1 := foldl _ s0 (map _ _)) in *.
    rewrite Hok. done.
  - intros err Hko. rewrite !foldl_app. fold s0.
    set (s1 := foldl _ s0 (map _ _)) in *.
    rewrite Hko. done.
Qed.

Section Schedules.

Import useFlightAnalysis.

Lemma execute_app (a b : list Stretch) (s : HookState) :
  execute (a ++ b) s = execute b (execute a s).
Proof. unfold execute, schedule_updates. by rewrite map_app, concat_app, foldl_app. Qed.

Lemma execute_cons (x : Stretch) (l : list Stretch) (s : HookState) :
  execute (x :: l) s = execute l (execute [x] s).
Proof. apply (execute_app [x] l). Qed.

Lemma execute_single (x : Stretch) (s : HookState) :
  execute [x] s = foldl (λ st u, u st) s (stretch_updates x).
Proof. unfold execute, schedule_updates. cbn [map concat]. by rewrite app_nil_r. Qed.

(** A call that nothing interrupts is its stretches one after the
    other. *)
Lemma analyze_as_stretches (upload : Upload) (s : HookState) :
  analyze upload s = execute (stretches upload) s.
Proof.
  unfold analyze, execute. f_equal.
  unfold analyze_updates, schedule_updates, stretches.
  rewrite !map_app, !concat_app. f_equal. f_equal.
  - induction (reported upload) as [| p l IH]; [done |]. cbn. by rewrite <- IH.
  - by destruct (settled upload).
Qed.

Lemma reset_as_stretch (s : HookState) : reset s = execute [ResetDone] s.
Proof. reflexivity. Qed.

(** The result cell after a stretch depends on the stretch and on the
    cell before only. *)
Lemma result_step (x : Stretch) (s : HookState) :
  result (execute [x] s) = stored x (result s).
Proof. by destruct x. Qed.

Lemma result_execute (schedule : list Stretch) (s : HookState) :
  result (execute schedule s) = foldl (λ r x, stored x r) (result s) schedule.
Proof.
  revert s. induction schedule as [| x l IH]; intros s; [done |].
  rewrite execute_cons, IH, result_step. done.
Qed.

(** The stretches of a failing call leave the result cell alone. *)
Lemma failing_stretches_store_nothing (upload : Upload) (err : Thrown) :
  settled upload = inl err →
  Forall (λ x, ∀ r, stored x r = r) (stretches upload).
Proof.
  intros Herr. unfold stretches. rewrite Herr.
  apply Forall_app. split; [by repeat constructor |].
  apply Forall_app. split; [| by repeat constructor].
  apply Forall_forall. intros x Hx.
  apply list_elem_of_In, in_map_iff in Hx as (p & <- & _). done.
Qed.

(** With a call whose stretches leave the result cell alone, the cell
    ends as the others alone would have left it. *)
Lemma result_left_to_others (schedule : list Turn) (r : option AnalysisResponse) :
  Forall (λ x, ∀ r, stored x r = r) (owns schedule) →
  foldl (λ r x, stored x r) r (map turn_stretch schedule)
  = foldl (λ r x, stored x r) r (others schedule).
Proof.
  revert r. induction schedule as [| [x | x] l IH]; intros r Hown; [done | |].
  - change (owns (Own x :: l)) with (x :: owns l) in Hown.
    apply Forall_cons in Hown as [Hx Hl].
    cbn [map foldl turn_stretch]. rewrite Hx.
    change (others (Own x :: l)) with (others l). by apply IH.
  - change (owns (Other x :: l)) with (owns l) in Hown.
    change (others (Other x :: l)) with (x :: others l).
    cbn [map foldl turn_stretch]. by apply IH.
Qed.

Lemma own_schedule (schedule : list Turn) :
  others schedule = [] → map turn_stretch schedule = owns schedule.
Proof.
  induction schedule as [| [x | x] l IH]; [done | | done].
  change (others (Own x :: l)) with (others l).
  change (owns (Own x :: l)) with (x :: owns l).
  intros H. cbn [map turn_stretch]. by rewrite IH.
Qed.

Lemma own_stretch_in_owns (schedule : list Turn) (x : Stretch) :
  Own x ∈ schedule → x ∈ owns schedule.
Proof.
  intros H. unfold owns. apply list_elem_of_omap. by exists (Own x).
Qed.

(** Every value the result cell takes while a schedule runs is the one
    from before, the response of a call that completed or the null of a
    reset. *)
Lemma observed_results (schedule : list Stretch) (s st : HookState) :
  st ∈ observe (schedule_updates schedule) s →
  result st = result s
  ∨ (∃ response, Completed response ∈ schedule ∧ result st = Some response)
  ∨ (ResetDone ∈ schedule ∧ result st = None).
Proof.
  revert s. induction schedule as [| x l IH]; intros s.
  - intros H. by apply not_elem_of_nil in H.
  - change (schedule_updates (x :: l)) with (stretch_updates x ++ schedule_updates l).
    rewrite observe_app. intros [H | H]%elem_of_app.
    + destruct x; cbn in H.
      * left. each_element H.
      * left. each_element H.
      * left. each_element H.
      * right. left. exists response. split; [apply list_elem_of_here |]. each_element H.
      * left. each_element H.
      * right. right. split; [apply list_elem_of_here |]. each_element H.
    + rewrite <- execute_single in H.
      destruct (IH _ H) as [Heq | [(response & Hin & Hr) | [Hin Hr]]].
      * rewrite Heq, result_step. destruct x; cbn [stored]; try by left.
        -- right. left. exists response. split; [apply list_elem_of_here | done].
        -- right. right. split; [apply list_elem_of_here | done].
      * right. left. exists response. split; [by apply list_elem_of_further | done].
      * right. right. split; [by apply list_elem_of_further | done].
Qed.

(** What the last stretch of a call is. *)
Lemma last_stretch (upload : Upload) :
  last (stretches upload)
  = Some match settled upload with
         | inr response => Completed response
         | inl err => Failed err
         end.
Proof.
  unfold stretches. rewrite !app_assoc.
  destruct (settled upload) as [err | response].
  - by rewrite last_snoc.
  - change [Uploaded; Completed response] with ([Uploaded] ++ [Completed response]).
    by rewrite app_assoc, last_snoc.
Qed.

Lemma owns_snoc (schedule : list Turn) (x : Stretch) :
  owns (schedule ++ [Own x]) = owns schedule ++ [x].
Proof. unfold owns. by rewrite omap_app. Qed.

End Schedules.

(** A failed run after a finished one: the stored result stays, but the
    progress is back at 0, so more than the error and the status changed. *)
Lemma analyze_failure_resets_progress :
  useFlightAnalysis.settled failed_upload = inl (useFlightAnalysis.ThrownError "Network Error") ∧
  ¬ only_error_and_status_change finished_state
      (useFlightAnalysis.analyze failed_upload finished_state).
Proof.
  split; [reflexivity |].
  intros [_ H]. vm_compute in H. discriminate.
Qed.

(** [C5] Every call of analyze, whatever other calls and resets run
    while it awaits: either it completes, and the complete response is
    then the stored result, or it fails, and then the stored result is
    the one the others alone would have left, the call itself not having
    touched it, while the error message and the status are set anew; when
    nothing else runs meanwhile, the stored result after a failure is the
    one from before the call and the upload progress is the last one
    reported, or 0.  Every state exposed on the way holds the earlier
    result, a complete response or the null of a reset, never a part of a
    result. *)
Theorem analyze_all_or_nothing
    (upload : useFlightAnalysis.Upload) (s : useFlightAnalysis.HookState)
    (schedule : list useFlightAnalysis.Turn) (final : useFlightAnalysis.Stretch) :
  useFlightAnalysis.owns schedule = useFlightAnalysis.stretches upload →
  last schedule = Some (useFlightAnalysis.Own final) →
  let s' :=
    useFlightAnalysis.execute (map useFlightAnalysis.turn_stretch schedule) s in
  (∀ response,
      useFlightAnalysis.settled upload = inr response →
      useFlightAnalysis.result s' = Some response ∧
      useFlightAnalysis.status s' = useFlightAnalysis.ready) ∧
  (∀ err,
      useFlightAnalysis.settled upload = inl err →
      useFlightAnalysis.result s'
        = useFlightAnalysis.result
            (useFlightAnalysis.execute (useFlightAnalysis.others schedule) s) ∧
      useFlightAnalysis.status s' = useFlightAnalysis.error ∧
      useFlightAnalysis.error_message s' = Some (useFlightAnalysis.failure_text err)) ∧
  (useFlightAnalysis.others schedule = [] →
      s' = useFlightAnalysis.analyze upload s ∧
      ∀ err,
        useFlightAnalysis.settled upload = inl err →
        useFlightAnalysis.result s' = useFlightAnalysis.result s ∧
        useFlightAnalysis.progress s' = List.last (useFlightAnalysis.reported upload) 0) ∧
  (∀ st,
      st ∈ useFlightAnalysis.observe
             (useFlightAnalysis.schedule_updates
                (map useFlightAnalysis.turn_stretch schedule)) s →
      useFlightAnalysis.result st = useFlightAnalysis.result s
      ∨ (∃ response,
            useFlightAnalysis.settled upload = inr response ∧
            useFlightAnalysis.result st = Some response)
      ∨ (∃ response,
            useFlightAnalysis.Other (useFlightAnalysis.Completed response) ∈ schedule ∧
            useFlightAnalysis.result st = Some response)
      ∨ (useFlightAnalysis.Other useFlightAnalysis.ResetDone ∈ schedule ∧
         useFlightAnalysis.result st = None)).
Proof.
  intros Hown Hlast. cbn zeta.
  apply last_Some in Hlast as [earlier_turns ->].
  rewrite owns_snoc in Hown.
  assert (Hfinal : Some final
                   = Some match useFlightAnalysis.settled upload with
                          | inr response => useFlightAnalysis.Completed response
                          | inl err => useFlightAnalysis.Failed err
                          end).
  { rewrite <- last_stretch, <- Hown. by rewrite last_snoc. }
  injection Hfinal as Hfinal.
  set (s1 := useFlightAnalysis.execute
               (map useFlightAnalysis.turn_stretch earlier_turns) s).
  assert (Hexec : useFlightAnalysis.execute
                    (map useFlightAnalysis.turn_stretch
                       (earlier_turns ++ [useFlightAnalysis.Own final])) s
                  = useFlightAnalysis.execute [final] s1).
  { by rewrite map_app, execute_app. }
  rewrite Hexec.
  split; [| split; [| split]].
  - intros response Hok. rewrite Hok in Hfinal. by subst final.
  - intros err Hko. rewrite Hko in Hfinal. subst final.
    split; [| done].
    change (useFlightAnalysis.result s1
            = useFlightAnalysis.result
                (useFlightAnalysis.execute
                   (useFlightAnalysis.others
                      (earlier_turns
                       ++ [useFlightAnalysis.Own (useFlightAnalysis.Failed err)])) s)).
    assert (Hothers : useFlightAnalysis.others
                        (earlier_turns
                         ++ [useFlightAnalysis.Own (useFlightAnalysis.Failed err)])
                      = useFlightAnalysis.others earlier_turns).
    { unfold useFlightAnalysis.others. rewrite omap_app. cbn. by rewrite app_nil_r. }
    rewrite Hothers. subst s1. rewrite !result_execute.
    apply result_left_to_others.
    pose proof (failing_stretches_store_nothing upload err Hko) as Hquiet.
    rewrite <- Hown in Hquiet. by apply Forall_app in Hquiet as [Hquiet _].
  - intros Halone.
    assert (Hrun : useFlightAnalysis.execute [final] s1
                   = useFlightAnalysis.analyze upload s).
    { rewrite analyze_as_stretches, <- Hown.
      rewrite <- (owns_snoc earlier_turns final), <- (own_schedule _ Halone).
      by rewrite Hexec. }
    split; [exact Hrun |].
    intros err Hko. rewrite Hrun.
    destruct (analyze_all_or_nothing_parts upload s) as [_ Hparts].
    by destruct (Hparts err Hko) as (Hr & _ & _ & Hp).
  - intros st Hst.
    destruct (observed_results _ _ _ Hst) as [Heq | [(response & Hin & Hr) | [Hin Hr]]].
    + by left.
    + apply list_elem_of_In, in_map_iff in Hin as ([x | x] & Hx & Hin);
        apply list_elem_of_In in Hin; cbn in Hx; subst x.
      * right. left. exists response. split; [| done].
        apply own_stretch_in_owns in Hin. rewrite owns_snoc, Hown in Hin.
        unfold useFlightAnalysis.stretches in Hin.
        apply elem_of_cons in Hin as [Hin | Hin]; [done |].
        apply elem_of_app in Hin as [Hin | Hin].
        { by apply list_elem_of_In, in_map_iff in Hin as (p & Hp & _). }
        destruct (useFlightAnalysis.settled upload) as [err | response'].
        { apply list_elem_of_singleton in Hin. done. }
        apply elem_of_cons in Hin as [Hin | Hin]; [done |].
        apply list_elem_of_singleton in Hin. by injection Hin as ->.
      * right. right. left. by exists response.
    + apply list_elem_of_In, in_map_iff in Hin as ([x | x] & Hx & Hin);
        apply list_elem_of_In in Hin; cbn in Hx; subst x.
      * exfalso.
        apply own_stretch_in_owns in Hin. rewrite owns_snoc, Hown in Hin.
        unfold useFlightAnalysis.stretches in Hin.
        apply elem_of_cons in Hin as [Hin | Hin]; [done |].
        apply elem_of_app in Hin as [Hin | Hin].
        { by apply list_elem_of_In, in_map_iff in Hin as (p & Hp & _). }
        destruct (useFlightAnalysis.settled upload) as [err | response'].
        { apply list_elem_of_singleton in Hin. done. }
        apply elem_of_cons in Hin as [Hin | Hin]; [done |].
        apply list_elem_of_singleton in Hin. done.
      * right. right. right. done.
Qed.

Lemma analyze_all_or_nothing_witness :
  useFlightAnalysis.result
    (useFlightAnalysis.execute
       (map useFlightAnalysis.turn_stretch overlapped_failure) finished_state)
    = Some other_response ∧
  useFlightAnalysis.status
    (useFlightAnalysis.execute
       (map useFlightAnalysis.turn_stretch overlapped_failure) finished_state)
    = useFlightAnalysis.error ∧
  useFlightAnalysis.error_message
    (useFlightAnalysis.execute
       (map useFlightAnalysis.turn_stretch overlapped_failure) finished_state)
    = Some "Network Error".
Proof.
  exact (proj1 (proj2 (analyze_all_or_nothing failed_upload finished_state
                         overlapped_failure
                         (useFlightAnalysis.Failed (useFlightAnalysis.ThrownError "Network Error"))
                         eq_refl eq_refl))
           (useFlightAnalysis.ThrownError "Network Error") eq_refl).
Defined.

(** ** FlightChart *)

Lemma defined_is_Some {A : Type} (v : option A) :
  FlightChart.defined v = true ↔ is_Some v.
Proof.
  destruct v; simpl; split; intros H; eauto.
  - discriminate.
  - destruct H as [x Hx]. discriminate.
Qed.

(** [C9] FlightChart renders nothing for an empty series; for a non-empty
    one it draws the altitude line exactly when the first point defines
    alt_msl_ft and the airspeed line exactly when the first point defines
    airspeed_indicated_kt, whatever the later points hold. *)
Theorem flight_chart_lines_follow_first_point :
  (∀ events, FlightChart.FlightChart [] events = None) ∧
  (∀ first rest events,
      ∃ chart,
        FlightChart.FlightChart (first :: rest) events = Some chart ∧
        (FlightChart.AltitudeLine ∈ FlightChart.chart_lines chart
           ↔ is_Some (alt_msl_ft first)) ∧
        (FlightChart.AirspeedLine ∈ FlightChart.chart_lines chart
           ↔ is_Some (airspeed_indicated_kt first))).
Proof.
  split; [reflexivity |].
  intros first rest events. eexists. split; [reflexivity |].
  cbn [FlightChart.chart_lines].
  rewrite <- !defined_is_Some.
  destruct (FlightChart.defined (alt_msl_ft first)),
           (FlightChart.defined (airspeed_indicated_kt first));
    cbn; split; split; intros H; try done;
    try (by apply list_elem_of_here);
    try (by apply list_elem_of_further, list_elem_of_here);
    repeat match goal with
           | H : _ ∈ _ :: _ |- _ => apply elem_of_cons in H; destruct H as [H | H]; try discriminate
           | H : _ ∈ [] |- _ => by apply not_elem_of_nil in H
           end.
Qed.

Lemma flight_chart_lines_follow_first_point_witness :
  ∃ chart,
    FlightChart.FlightChart (series_data sample_response) [] = Some chart ∧
    (FlightChart.AltitudeLine ∉ FlightChart.chart_lines chart) ∧
    (FlightChart.AirspeedLine ∈ FlightChart.chart_lines chart).
Proof.
  destruct (proj2 flight_chart_lines_follow_first_point
              {| sp_time_seconds := 0; alt_msl_ft := None;
                 airspeed_indicated_kt := Some 80%Q; vertical_speed_fpm := None;
                 roll_deg := None; pitch_deg := None |}
              [ {| sp_time_seconds := 118; alt_msl_ft := Some 900%Q;
                   airspeed_indicated_kt := Some 90%Q; vertical_speed_fpm := None;
                   roll_deg := None; pitch_deg := None |} ]
              [])
    as (chart & Hchart & Halt & Hspeed).
  exists chart. split; [exact Hchart |]. split.
  - intros H. apply Halt in H. by destruct H.
  - apply Hspeed. by eexists.
Defined.

(** ** App: preset windows *)

Lemma last_rev_head {A : Type} (l : list A) : last l = head (rev l).
Proof.
  induction l as [| x l IH] using rev_ind; [reflexivity |].
  rewrite last_snoc, rev_app_distr. reflexivity.
Qed.

Lemma duration_as_specified (r : AnalysisResponse) :
  App.duration r = full_flight_duration (signal_matrix r) (series_data r).
Proof.
  unfold App.duration, full_flight_duration, JS.at_last, JS.nullish.
  rewrite !last_rev_head.
  destruct (rev (signal_matrix r)), (rev (series_data r)); reflexivity.
Qed.

(** [C6] For every analysis result the preset-window list is non-empty:
    one or more windows supplied by the backend are used unchanged;
    otherwise the list is exactly the one full-flight window
    [0, duration], the duration being the last signal-matrix timestamp,
    else the last series-data timestamp, else 0. *)
Theorem presets_never_empty (r : AnalysisResponse) :
  App.presets (Some r) ≠ [] ∧
  (∀ p ps, ar_presets r = Some (p :: ps) → App.presets (Some r) = p :: ps) ∧
  (ar_presets r = None ∨ ar_presets r = Some [] →
     App.presets (Some r) =
       [ {| pw_id := "full"; pw_label := "Full Flight";
            pw_window := (0%Q, full_flight_duration (signal_matrix r) (series_data r)) |} ]).
Proof.
  rewrite <- duration_as_specified. unfold App.presets.
  split; [| split].
  - destruct (ar_presets r) as [[| p ps] |]; discriminate.
  - intros p ps ->. reflexivity.
  - intros [-> | ->]; reflexivity.
Qed.

Lemma presets_never_empty_witness :
  App.presets (Some sample_response) =
    [ {| pw_id := "full"; pw_label := "Full Flight"; pw_window := (0%Q, 120%Q) |} ].
Proof.
  apply (presets_never_empty sample_response). right. reflexivity.
Defined.

(** [C7] The severity of every Event and every RuleEvent is one of info,
    warning and critical, and both severity-keyed tables (icon, colour) have
    an entry for each of the three, so the lookup never yields undefined. *)
Theorem severity_lookup_total :
  (∀ e : FlightEvent,
      fe_severity e = info ∨ fe_severity e = warning ∨ fe_severity e = critical) ∧
  (∀ r : RuleEvent,
      re_severity r = info ∨ re_severity r = warning ∨ re_severity r = critical) ∧
  (∀ s : Severity, is_Some (lookup_severity RulePanel.severityIcon s)) ∧
  (∀ s : Severity, is_Some (lookup_severity EventsTimeline.severityToHue s)).
Proof.
  repeat split.
  - intros e. destruct (fe_severity e); auto.
  - intros r. destruct (re_severity r); auto.
  - intros s. destruct s; vm_compute; eauto.
  - intros s. destruct s; vm_compute; eauto.
Qed.


(** ** SignalStrip: the Brush *)

Section FindIndex.

Context {A : Type} (p : A → bool).

Lemma findIndex_from_shift (l : list A) (i : Z) :
  JS.findIndex_from p l i = -1 ∧ JS.findIndex_from p l 0 = -1
  ∨ JS.findIndex_from p l i = i + JS.findIndex_from p l 0 ∧ 0 ≤ JS.findIndex_from p l 0.
Proof.
  revert i. induction l as [| x l IH]; intros i; cbn [JS.findIndex_from]; [by left |].
  destruct (p x); [right; lia |].
  destruct (IH (i + 1)) as [[H1 H0] | [H1 H0]], (IH (0 + 1)) as [[G1 G0] | [G1 G0]];
    rewrite ?H1, ?G1; lia.
Qed.

(** [findIndex] is -1 exactly when no element satisfies the predicate. *)
Lemma findIndex_none (l : list A) :
  JS.findIndex p l = -1 ↔ Forall (λ x, p x = false) l.
Proof.
  unfold JS.findIndex. induction l as [| x l IH]; cbn [JS.findIndex_from].
  - split; [constructor | done].
  - destruct (p x) eqn:Hx.
    + split; [done |]. intros H. inversion H; congruence.
    + destruct (findIndex_from_shift l (0 + 1)) as [[H1 H0] | [H1 H0]]; rewrite H1.
      * split; [| done]. intros _. constructor; [done | by apply IH].
      * split; [lia |]. intros H. inversion H as [| ? ? _ Hl]; subst. apply IH in Hl. lia.
Qed.

(** Otherwise it is the position of the first element that does. *)
Lemma findIndex_first (l : list A) (k : nat) (x : A) :
  l !! k = Some x → p x = true →
  (∀ j y, (j < k)%nat → l !! j = Some y → p y = false) →
  JS.findIndex p l = Z.of_nat k.
Proof.
  unfold JS.findIndex. revert k. induction l as [| a l IH]; intros k Hk Hx Hbefore; [done |].
  cbn [JS.findIndex_from]. destruct k as [| k].
  - injection Hk as ->. by rewrite Hx.
  - rewrite (Hbefore 0%nat a) by (done || lia).
    destruct (findIndex_from_shift l (0 + 1)) as [[H1 H0] | [H1 H0]]; rewrite H1.
    + rewrite (IH k) in H0; [lia | done | done |].
      intros j y Hj Hy. apply (Hbefore (S j) y); [lia | done].
    + rewrite (IH k); [lia | done | done |].
      intros j y Hj Hy. apply (Hbefore (S j) y); [lia | done].
Qed.

Lemma findIndex_found (l : list A) :
  0 ≤ JS.findIndex p l →
  ∃ x, l !! Z.to_nat (JS.findIndex p l) = Some x ∧ p x = true ∧
       ∀ j y, (j < Z.to_nat (JS.findIndex p l))%nat → l !! j = Some y → p y = false.
Proof.
  unfold JS.findIndex. induction l as [| a l IH]; cbn [JS.findIndex_from]; [lia |].
  destruct (p a) eqn:Ha.
  - intros _. exists a. repeat split; [done |]. intros j y Hj. cbn in Hj. lia.
  - destruct (findIndex_from_shift l (0 + 1)) as [[H1 H0] | [H1 H0]]; rewrite H1; [lia |].
    intros _. destruct (IH H0) as (x & Hx & Hp & Hbefore).
    exists x. replace (Z.to_nat (0 + 1 + JS.findIndex_from p l 0))
      with (S (Z.to_nat (JS.findIndex_from p l 0))) by lia.
    repeat split; [done | done |].
    intros [| j] y Hj Hy; [by injection Hy as <- |].
    apply (Hbefore j y); [lia | done].
Qed.

Lemma findIndex_bounds (l : list A) :
  -1 ≤ JS.findIndex p l < Z.of_nat (length l).
Proof.
  destruct (Z_lt_le_dec (JS.findIndex p l) 0) as [Hneg | Hpos].
  - assert (JS.findIndex p l = -1); [| lia].
    unfold JS.findIndex in *.
    destruct (findIndex_from_shift l 0) as [[H1 H0] | [H1 H0]]; lia.
  - destruct (findIndex_found l Hpos) as (x & Hx & _).
    apply lookup_lt_Some in Hx. lia.
Qed.

End FindIndex.

(** [X1] The Brush of a non-empty strip always gets valid indices, in order
    when the window is: [startIndex] and the end index handed to the Brush
    lie between 0 and the last position, and the start is not after the
    end when [window[0] <= window[1]]. *)
Theorem brush_indices_in_range (merged : list SignalMatrixPoint) (window : Q * Q) :
  merged ≠ [] →
  0 ≤ SignalStrip.startIndex merged window < Z.of_nat (length merged) ∧
  0 ≤ SignalStrip.brushEndIndex merged window < Z.of_nat (length merged) ∧
  ((fst window <= snd window)%Q →
     SignalStrip.startIndex merged window ≤ SignalStrip.brushEndIndex merged window).
Proof.
  intros Hne.
  assert (Hlen : 0 < Z.of_nat (length merged)) by (destruct merged; [done | cbn; lia]).
  unfold SignalStrip.startIndex, SignalStrip.brushEndIndex, SignalStrip.endIndex.
  set (p0 := λ p : SignalMatrixPoint, Qle_bool (fst window) (smp_time_seconds p)).
  set (p1 := λ p : SignalMatrixPoint, Qle_bool (snd window) (smp_time_seconds p)).
  pose proof (findIndex_bounds p0 merged) as B0.
  pose proof (findIndex_bounds p1 merged) as B1.
  rewrite (Z.min_r _ (JS.findIndex p1 merged)) by lia.
  destruct (Z.ltb_spec (-1) (JS.findIndex p1 merged)) as [Hfound | Hnot].
  - split; [lia |]. split; [lia |]. intros Hw.
    destruct (findIndex_found p1 merged) as (x & Hx & Hp1 & _); [lia |].
    assert (Hp0 : p0 x = true).
    { subst p0 p1. cbn in *. apply Qle_bool_iff in Hp1. apply Qle_bool_iff. lra. }
    destruct (Z_lt_le_dec (JS.findIndex p0 merged) 0) as [Hneg | Hpos].
    + lia.
    + destruct (findIndex_found p0 merged Hpos) as (y & Hy & _ & Hbefore).
      destruct (Z_le_gt_dec (JS.findIndex p0 merged) (JS.findIndex p1 merged)); [lia |].
      rewrite (Hbefore (Z.to_nat (JS.findIndex p1 merged)) x) in Hp0; [done | lia | done].
  - split; [lia |]. split; lia.
Qed.

Lemma brush_indices_in_range_witness :
  0 ≤ SignalStrip.startIndex strip_points (1, 2)%Q < 4 ∧
  0 ≤ SignalStrip.brushEndIndex strip_points (1, 2)%Q < 4 ∧
  SignalStrip.startIndex strip_points (1, 2)%Q
    ≤ SignalStrip.brushEndIndex strip_points (1, 2)%Q.
Proof.
  destruct (brush_indices_in_range strip_points (1, 2)%Q) as (Hs & He & Hle); [done |].
  split; [exact Hs |]. split; [exact He |]. apply Hle. vm_compute. discriminate.
Defined.

Lemma filter_nothing {A : Type} (f : A → bool) (l : list A) :
  Forall (λ x, f x = false) l → List.filter f l = [].
Proof. induction 1 as [| x l Hx _ IH]; cbn; [done |]. by rewrite Hx. Qed.

(** [X2] A window that begins after the last point: the chart is empty, yet
    the Brush is told to span the whole strip. *)
Theorem brush_spans_all_when_window_is_late
    (merged : list SignalMatrixPoint) (window : Q * Q) :
  Forall (λ p, smp_time_seconds p < fst window)%Q merged →
  (fst window <= snd window)%Q →
  SignalStrip.filtered merged window = [] ∧
  SignalStrip.startIndex merged window = 0 ∧
  SignalStrip.brushEndIndex merged window = Z.of_nat (length merged) - 1.
Proof.
  intros Hlate Hw.
  assert (H0 : Forall (λ p, Qle_bool (fst window) (smp_time_seconds p) = false) merged).
  { eapply Forall_impl; [exact Hlate |]. intros p Hp. cbn in Hp.
    apply not_true_is_false. rewrite Qle_bool_iff. lra. }
  assert (H1 : Forall (λ p, Qle_bool (snd window) (smp_time_seconds p) = false) merged).
  { eapply Forall_impl; [exact Hlate |]. intros p Hp. cbn in Hp.
    apply not_true_is_false. rewrite Qle_bool_iff. lra. }
  split; [| split].
  - apply filter_nothing. eapply Forall_impl; [exact H0 |]. intros p Hp. cbn in Hp.
    unfold SignalStrip.in_window. by rewrite Hp.
  - unfold SignalStrip.startIndex.
    by rewrite (proj2 (findIndex_none _ merged) H0).
  - unfold SignalStrip.brushEndIndex, SignalStrip.endIndex.
    rewrite (proj2 (findIndex_none _ merged) H1).
    destruct (Z.ltb_spec (-1) (Z.min (Z.of_nat (length merged) - 1) (-1))); lia.
Qed.

Lemma brush_spans_all_when_window_is_late_witness :
  SignalStrip.filtered strip_points (10, 20)%Q = [] ∧
  SignalStrip.startIndex strip_points (10, 20)%Q = 0 ∧
  SignalStrip.brushEndIndex strip_points (10, 20)%Q = 3.
Proof.
  apply (brush_spans_all_when_window_is_late strip_points (10, 20)%Q).
  - repeat constructor.
  - vm_compute. discriminate.
Defined.

Section BrushRoundTrip.

Local Open Scope Q_scope.

Variables before selected after : list SignalMatrixPoint.
Variables first final : SignalMatrixPoint.
Hypothesis Hsorted : StronglySorted earlier (before ++ selected ++ after).
Hypothesis Hfirst : head selected = Some first.
Hypothesis Hfinal : last selected = Some final.

Local Abbreviation merged := (before ++ selected ++ after).
Local Abbreviation window := (smp_time_seconds first, smp_time_seconds final).

Lemma selected_between (x : SignalMatrixPoint) :
  x ∈ selected →
  smp_time_seconds first <= smp_time_seconds x <= smp_time_seconds final.
Proof.
  intros Hx.
  apply StronglySorted_app in Hsorted as (_ & _ & Hrest).
  apply StronglySorted_app in Hrest as (_ & Hsel & _).
  split.
  - destruct selected as [| a rest]; [done |]. injection Hfirst as ->.
    apply elem_of_cons in Hx as [-> | Hx]; [lra |].
    inversion Hsel as [| ? ? _ Hall]; subst.
    apply Qlt_le_weak. by apply (proj1 (Forall_forall _ _) Hall).
  - destruct selected as [| a rest] using rev_ind; [done |].
    rewrite last_snoc in Hfinal. injection Hfinal as ->.
    apply elem_of_app in Hx as [Hx | Hx].
    + apply Qlt_le_weak.
      apply (StronglySorted_app_1_elem_of _ _ _ _ _ Hsel Hx).
      by apply list_elem_of_singleton.
    + apply list_elem_of_singleton in Hx. subst. lra.
Qed.

Lemma before_is_earlier (x : SignalMatrixPoint) :
  x ∈ before → smp_time_seconds x < smp_time_seconds first.
Proof.
  intros Hx.
  apply (StronglySorted_app_1_elem_of _ _ _ _ _ Hsorted Hx).
  apply elem_of_app. left.
  destruct selected as [| a rest]; [done |]. injection Hfirst as ->.
  apply list_elem_of_here.
Qed.

Lemma after_is_later (x : SignalMatrixPoint) :
  x ∈ after → smp_time_seconds final < smp_time_seconds x.
Proof.
  intros Hx.
  apply StronglySorted_app in Hsorted as (_ & _ & Hrest).
  apply (StronglySorted_app_1_elem_of _ _ _ _ _ Hrest); [| done].
  destruct selected as [| a rest] using rev_ind; [done |].
  rewrite last_snoc in Hfinal. injection Hfinal as ->.
  apply elem_of_app. right. by apply list_elem_of_singleton.
Qed.

(** The window of a brushed stretch shows that stretch and nothing
    else. *)
Lemma filtered_is_selected : SignalStrip.filtered merged window = selected.
Proof.
  unfold SignalStrip.filtered. rewrite !List.filter_app.
  rewrite (filter_nothing _ before), (filter_nothing _ after), app_nil_r; cbn [app].
  - apply (window_filter_all smp_time_seconds window).
    apply Forall_forall. intros x Hx. by apply selected_between.
  - apply Forall_forall. intros x Hx. apply after_is_later in Hx.
    unfold SignalStrip.in_window. cbn [fst snd].
    apply andb_false_iff. right. apply not_true_is_false. rewrite Qle_bool_iff. lra.
  - apply Forall_forall. intros x Hx. apply before_is_earlier in Hx.
    unfold SignalStrip.in_window. cbn [fst snd].
    apply andb_false_iff. left. apply not_true_is_false. rewrite Qle_bool_iff. lra.
Qed.

Lemma first_position : merged !! length before = Some first.
Proof.
  rewrite lookup_app_r by lia. rewrite Nat.sub_diag.
  destruct selected; [done |]. by injection Hfirst as ->.
Qed.

Lemma final_position :
  merged !! (length before + length selected - 1)%nat = Some final.
Proof.
  destruct selected as [| a rest] using rev_ind; [done |].
  rewrite last_snoc in Hfinal. injection Hfinal as ->.
  rewrite length_app. cbn [length].
  rewrite lookup_app_r by lia. rewrite lookup_app_l by (rewrite length_app; cbn; lia).
  rewrite lookup_app_r by lia.
  replace (length before + (length rest + 1) - 1 - length before - length rest)%nat
    with 0%nat by lia.
  done.
Qed.

Lemma before_final_is_earlier (j : nat) (x : SignalMatrixPoint) :
  (j < length before + length selected - 1)%nat →
  merged !! j = Some x →
  smp_time_seconds x < smp_time_seconds final.
Proof.
  intros Hj Hx.
  destruct selected as [| a rest] using rev_ind; [done |].
  rewrite last_snoc in Hfinal. injection Hfinal as ->.
  rewrite length_app in Hj. cbn [length] in Hj.
  assert (Hsplit : StronglySorted earlier ((before ++ rest) ++ (final :: after))).
  { by rewrite <- !app_assoc in *. }
  apply (StronglySorted_app_1_elem_of _ _ _ x final Hsplit); [| apply list_elem_of_here].
  apply list_elem_of_lookup. exists j.
  rewrite <- !app_assoc in Hx. rewrite app_assoc in Hx.
  rewrite lookup_app_l in Hx; [done |]. rewrite length_app. lia.
Qed.

(** [X3] Brushing a stretch of a strip whose times increase strictly: the
    window reported is the stretch's first and last time, the chart then
    shows exactly the stretch, and the indices recomputed for the Brush
    are the ones brushed. *)
Theorem brush_window_round_trip :
  SignalStrip.handleBrushChange merged
    {| SignalStrip.range_startIndex := Some (Z.of_nat (length before));
       SignalStrip.range_endIndex :=
         Some (Z.of_nat (length before + length selected) - 1)%Z |}
  = Some window ∧
  SignalStrip.filtered merged window = selected ∧
  SignalStrip.startIndex merged window = Z.of_nat (length before) ∧
  SignalStrip.brushEndIndex merged window
  = (Z.of_nat (length before + length selected) - 1)%Z.
Proof.
  assert (Hlen : (0 < length selected)%nat) by (destruct selected; [done | cbn; lia]).
  pose proof first_position as Hi.
  pose proof final_position as Hj.
  split; [| split; [exact filtered_is_selected | split]].
  - unfold SignalStrip.handleBrushChange, JS.index. cbn [SignalStrip.range_startIndex
      SignalStrip.range_endIndex].
    rewrite Z.max_r by lia.
    rewrite Z.min_r by (rewrite !length_app; lia).
    destruct (Z.ltb_spec (Z.of_nat (length before)) 0); [lia |].
    destruct (Z.ltb_spec (Z.of_nat (length before + length selected) - 1)%Z 0); [lia |].
    rewrite Nat2Z.id, Hi.
    replace (Z.to_nat (Z.of_nat (length before + length selected) - 1))
      with (length before + length selected - 1)%nat by lia.
    by rewrite Hj.
  - unfold SignalStrip.startIndex.
    rewrite (findIndex_first _ merged (length before) first Hi).
    + lia.
    + cbn [fst]. apply Qle_bool_iff. lra.
    + intros j y Hlt Hy. cbn [fst].
      rewrite lookup_app_l in Hy by done.
      apply list_elem_of_lookup_2, before_is_earlier in Hy.
      apply not_true_is_false. rewrite Qle_bool_iff. lra.
  - unfold SignalStrip.brushEndIndex, SignalStrip.endIndex.
    rewrite (findIndex_first _ merged (length before + length selected - 1) final Hj).
    + rewrite Z.min_r by (rewrite !length_app; lia).
      destruct (Z.ltb_spec (-1)%Z (Z.of_nat (length before + length selected - 1))); lia.
    + cbn [snd]. apply Qle_bool_iff. lra.
    + intros j y Hlt Hy. cbn [snd].
      pose proof (before_final_is_earlier j y Hlt Hy).
      apply not_true_is_false. rewrite Qle_bool_iff. lra.
Qed.

End BrushRoundTrip.

Lemma brush_window_round_trip_witness :
  SignalStrip.handleBrushChange strip_points
    {| SignalStrip.range_startIndex := Some 1; SignalStrip.range_endIndex := Some 2 |}
  = Some (1, 2)%Q ∧
  SignalStrip.filtered strip_points (1, 2)%Q = take 2 (drop 1 strip_points) ∧
  SignalStrip.startIndex strip_points (1, 2)%Q = 1 ∧
  SignalStrip.brushEndIndex strip_points (1, 2)%Q = 2.
Proof.
  apply (brush_window_round_trip (take 1 strip_points) (take 2 (drop 1 strip_points))
           (drop 3 strip_points)
           {| smp_time_seconds := 1; smp_signals := {[ "altitude_ft" := 900%Q ]} |}
           {| smp_time_seconds := 2; smp_signals := {[ "altitude_ft" := 950%Q ]} |});
    [| reflexivity | reflexivity].
  repeat constructor.
Defined.

(** An index the Brush leaves undefined: the window is not touched. *)
Lemma brush_change_needs_both_indices (merged : list SignalMatrixPoint) (range : SignalStrip.BrushRange) :
  SignalStrip.handleBrushChange merged range = None
  ↔ SignalStrip.range_startIndex range = None ∨ SignalStrip.range_endIndex range = None.
Proof.
  unfold SignalStrip.handleBrushChange.
  destruct (SignalStrip.range_startIndex range), (SignalStrip.range_endIndex range);
    split; intros H; try done; try (by left); try (by right); by destruct H.
Qed.

(** ** SignalStrip: more on the merged points *)

Section RiskKey.

Local Open Scope Q_scope.

(** The number a key stands for. *)
Lemma tenth_key_value (x : Q) :
  ∃ k : Q, SignalStrip.tenth_key x = Q2Qc k ∧ k - (1 # 20) <= x <= k + (1 # 20).
Proof.
  unfold SignalStrip.tenth_key.
  destruct (Qle_bool (inject_Z (10 ^ 21)) (Qabs x)).
  { exists x. split; [done | lra]. }
  exists (SignalStrip.nearest_tenth x # 10). split; [done |].
  unfold SignalStrip.nearest_tenth.
  destruct (Qle_bool 0 x).
  - pose proof (Qfloor_le (x * 10 + (1 # 2))) as Hlo.
    pose proof (Qlt_floor (x * 10 + (1 # 2))) as Hhi.
    rewrite inject_Z_plus in Hhi.
    rewrite (Qmake_Qdiv (Qfloor (x * 10 + (1 # 2))) 10).
    set (n := inject_Z (Qfloor (x * 10 + (1 # 2)))) in *.
    change (inject_Z 1) with 1 in Hhi. change (inject_Z (Z.pos 10)) with 10.
    clearbody n. unfold Qdiv. change (/ 10) with (1 # 10). lra.
  - pose proof (Qfloor_le (- x * 10 + (1 # 2))) as Hlo.
    pose proof (Qlt_floor (- x * 10 + (1 # 2))) as Hhi.
    rewrite inject_Z_plus in Hhi.
    rewrite (Qmake_Qdiv (- Qfloor (- x * 10 + (1 # 2))) 10), inject_Z_opp.
    set (n := inject_Z (Qfloor (- x * 10 + (1 # 2)))) in *.
    change (inject_Z 1) with 1 in Hhi. change (inject_Z (Z.pos 10)) with 10.
    clearbody n. unfold Qdiv. change (/ 10) with (1 # 10). lra.
Qed.

(** Two times with the same key are at most a tenth of a second apart. *)
Lemma same_key_is_near (x y : Q) :
  SignalStrip.tenth_key x = SignalStrip.tenth_key y → Qabs (x - y) <= 1 # 10.
Proof.
  intros Hkey.
  destruct (tenth_key_value x) as (kx & Hx & Bx), (tenth_key_value y) as (ky & Hy & By).
  rewrite Hx, Hy in Hkey. apply Q2Qc_eq_iff in Hkey.
  apply Qabs_Qle_condition. lra.
Qed.

End RiskKey.

(** Whatever the lookup finds was put there by a RiskPoint with that
    key. *)
Lemma riskLookup_some (risk : list RiskPoint) (k : Qc) (v : Q) :
  SignalStrip.riskLookup risk !! k = Some v →
  ∃ rp, rp ∈ risk ∧ SignalStrip.tenth_key (rp_time_seconds rp) = k ∧ hf_index rp = v.
Proof.
  induction risk as [| x risk IH] using rev_ind; [done |].
  rewrite riskLookup_snoc. intros [[Hk Hv] | [Hk Hv]]%lookup_insert_Some.
  - exists x. split; [| done]. apply elem_of_app. right. by apply list_elem_of_singleton.
  - destruct (IH Hv) as (rp & Hin & Hrest). exists rp. split; [| done].
    apply elem_of_app. by left.
Qed.

(** [X4] The risk drawn at a point of the strip is 0 for want of a RiskPoint,
    or the hf_index of a RiskPoint at most a tenth of a second away. *)
Theorem merged_risk_comes_from_nearby
    (data : list SignalMatrixPoint) (risk : list RiskPoint)
    (i : nat) (m : SignalMatrixPoint) :
  SignalStrip.merged data risk !! i = Some m →
  smp_signals m !! "hf_index" = Some 0%Q ∨
  ∃ rp, rp ∈ risk ∧
        smp_signals m !! "hf_index" = Some (hf_index rp) ∧
        (Qabs (rp_time_seconds rp - smp_time_seconds m) <= 1 # 10)%Q.
Proof.
  unfold SignalStrip.merged. rewrite list_lookup_fmap.
  destruct (data !! i) as [point |]; [| done].
  intros [= <-]. cbn [SignalStrip.merge_point smp_signals smp_time_seconds].
  rewrite lookup_insert_eq.
  destruct (SignalStrip.riskLookup risk !! _) as [v |] eqn:Hv; [| by left].
  right. apply riskLookup_some in Hv as (rp & Hin & Hkey & Hval).
  exists rp. split; [done |]. split; [by rewrite Hval |].
  by apply same_key_is_near.
Qed.

Lemma merged_risk_comes_from_nearby_witness :
  smp_signals (SignalStrip.merge_point (SignalStrip.riskLookup [risk_at_4]) point_at_5)
    !! "hf_index" = Some 0%Q ∨
  ∃ rp, rp ∈ [risk_at_4] ∧
        smp_signals (SignalStrip.merge_point (SignalStrip.riskLookup [risk_at_4]) point_at_5)
          !! "hf_index" = Some (hf_index rp) ∧
        (Qabs (rp_time_seconds rp
               - smp_time_seconds
                   (SignalStrip.merge_point (SignalStrip.riskLookup [risk_at_4]) point_at_5))
         <= 1 # 10)%Q.
Proof.
  apply (merged_risk_comes_from_nearby [point_at_5] [risk_at_4] 0). reflexivity.
Defined.

(** Filtering the merged points is merging the filtered ones. *)
Lemma filter_and_merge_parts
    (data : list SignalMatrixPoint) (risk : list RiskPoint) (window : Q * Q) :
  SignalStrip.filtered (SignalStrip.merged data risk) window
  = SignalStrip.merged (SignalStrip.filtered data window) risk ∧
  map smp_time_seconds (SignalStrip.merged data risk) = map smp_time_seconds data.
Proof.
  split.
  - unfold SignalStrip.filtered, SignalStrip.merged.
    induction data as [| p data IH]; [done |].
    cbn [map List.filter SignalStrip.merge_point smp_time_seconds].
    destruct (SignalStrip.in_window window (smp_time_seconds p)); cbn [map]; by rewrite IH.
  - unfold SignalStrip.merged. rewrite map_map. apply map_ext. done.
Qed.

(** [X5] Merging leaves the times alone, so the window can be applied before
    or after it; and every point drawn, in the window or not, carries an
    hf_index. *)
Theorem filter_and_merge_commute
    (data : list SignalMatrixPoint) (risk : list RiskPoint) (window : Q * Q) :
  SignalStrip.filtered (SignalStrip.merged data risk) window
  = SignalStrip.merged (SignalStrip.filtered data window) risk ∧
  Forall (λ m, is_Some (smp_signals m !! "hf_index"))
         (SignalStrip.filtered (SignalStrip.merged data risk) window) ∧
  map smp_time_seconds (SignalStrip.merged data risk) = map smp_time_seconds data.
Proof.
  destruct (filter_and_merge_parts data risk window) as [Hcomm Htimes].
  split; [exact Hcomm |]. split; [| exact Htimes].
  rewrite Hcomm. unfold SignalStrip.merged. apply Forall_forall.
  intros m Hm. apply list_elem_of_fmap in Hm as (p & -> & _).
  cbn [SignalStrip.merge_point smp_signals]. rewrite lookup_insert_eq. by eexists.
Qed.

(** ** useFlightAnalysis: the states calls leave behind *)

Section Overlap.

Import useFlightAnalysis.





End Overlap.



(** It ends ready, the response of the first upload on display beside
    the error of the second. *)
Example overtaken_upload_ends_ready_with_error :
  useFlightAnalysis.execute overtaken_schedule useFlightAnalysis.initial
  = {| useFlightAnalysis.status := useFlightAnalysis.ready;
       useFlightAnalysis.progress := 100;
       useFlightAnalysis.error_message := Some "Network Error";
       useFlightAnalysis.result := Some other_response |}.
Proof. reflexivity. Qed.



(** [X7] A failed analysis after a successful one leaves the earlier result on
    display beside the error, and a reset alone removes it. *)
Theorem stale_result_survives_failure
    (good bad : useFlightAnalysis.Upload) (response : AnalysisResponse)
    (err : useFlightAnalysis.Thrown) (earlier_actions : list useFlightAnalysis.Action) :
  useFlightAnalysis.settled good = inr response →
  useFlightAnalysis.settled bad = inl err →
  let s :=
    useFlightAnalysis.history
      (earlier_actions ++ [useFlightAnalysis.Analyze good; useFlightAnalysis.Analyze bad]) in
  useFlightAnalysis.status s = useFlightAnalysis.error ∧
  useFlightAnalysis.result s = Some response ∧
  useFlightAnalysis.hasResult (useFlightAnalysis.meta s) = true ∧
  useFlightAnalysis.perform s useFlightAnalysis.Reset = useFlightAnalysis.initial.
Proof.
  intros Hgood Hbad. cbn zeta. unfold useFlightAnalysis.history.
  rewrite foldl_app. cbn [foldl useFlightAnalysis.perform].
  set (s0 := foldl useFlightAnalysis.perform useFlightAnalysis.initial earlier_actions).
  destruct (analyze_all_or_nothing_parts good s0) as [Hok _].
  destruct (Hok response Hgood) as (Hr & _).
  destruct (analyze_all_or_nothing_parts bad (useFlightAnalysis.analyze good s0)) as [_ Hko].
  destruct (Hko err Hbad) as (Hr' & Hs' & _).
  rewrite Hr in Hr'.
  split; [exact Hs' |]. split; [exact Hr' |]. split; [| reflexivity].
  unfold useFlightAnalysis.meta. cbn [useFlightAnalysis.hasResult]. by rewrite Hr'.
Qed.

Lemma stale_result_survives_failure_witness :
  useFlightAnalysis.result
    (useFlightAnalysis.history
       ([] ++ [useFlightAnalysis.Analyze good_upload;
               useFlightAnalysis.Analyze failed_upload]))
  = Some other_response.
Proof.
  apply (stale_result_survives_failure good_upload failed_upload other_response
           (useFlightAnalysis.ThrownError "Network Error") []);
    reflexivity.
Defined.

(** ** useAiConsole: commands that overlap *)

(** A schedule runs the stretches of its calls, each once. *)
Lemma interleaving_Permutation {A : Type} (calls : list (list A)) (schedule : list A) :
  interleaving calls schedule → schedule ≡ₚ concat calls.
Proof.
  induction 1 as [calls Hdone | calls i x rest schedule Hi Hrest IH].
  - induction Hdone as [| call calls -> _ IH]; [done |]. done.
  - rewrite IH. clear IH Hrest. revert i Hi.
    induction calls as [| call calls IH]; intros i Hi; [done |].
    destruct i as [| i]; cbn in Hi.
    + injection Hi as ->. done.
    + cbn [concat]. change (<[S i := rest]> (call :: calls))
        with (call :: <[i := rest]> calls).
      cbn [concat]. rewrite <- (IH i Hi). by rewrite Permutation_middle.
Qed.

Section ConsoleSchedules.

Import useAiConsole.

Variable summary : FlightSummary.
Variable ruleEvents : list RuleEvent.

Lemma execute_snoc (schedule : list Stretch) (x : Stretch) (s : ConsoleState) :
  execute summary ruleEvents (schedule ++ [x]) s
  = run_stretch summary ruleEvents (execute summary ruleEvents schedule s) x.
Proof. unfold execute. by rewrite foldl_app. Qed.

(** The log is the one from before followed by an entry per answer, in
    the order of the answers. *)
Lemma logs_of_schedule (schedule : list Stretch) (s : ConsoleState) :
  logs (after (execute summary ruleEvents schedule s))
  = logs s ++ map entry_of (replies schedule).
Proof.
  induction schedule as [| x l IH] using rev_ind.
  - cbn. by rewrite app_nil_r.
  - rewrite execute_snoc. unfold replies. rewrite omap_app.
    fold (replies l). destruct x as [c | c]; cbn.
    + by rewrite IH, app_nil_r.
    + by rewrite IH, map_app, app_assoc.
Qed.

(** The requests are those of the calls in the order they were made. *)
Lemma requests_of_schedule (schedule : list Stretch) (s : ConsoleState) :
  requests (execute summary ruleEvents schedule s)
  = map (request_of summary ruleEvents) (asks schedule).
Proof.
  induction schedule as [| x l IH] using rev_ind; [done |].
  rewrite execute_snoc. unfold asks. rewrite omap_app.
  fold (asks l). destruct x as [c | c]; cbn.
  + by rewrite IH, map_app.
  + by rewrite IH, app_nil_r.
Qed.

(** One call that nothing interrupts is its stretches one after the
    other. *)
Lemma runCommand_as_stretches (c : Call) (s : ConsoleState) :
  runCommand (Some summary) ruleEvents (call_command c) (call_window c) (call_env c) s
  = execute summary ruleEvents (call_stretches (Some summary) c) s.
Proof.
  unfold runCommand, call_stretches. by destruct (blank (call_command c)).
Qed.

Lemma replies_of_calls (calls : list Call) :
  replies (concat (map (call_stretches (Some summary)) calls)) = answered calls.
Proof.
  induction calls as [| c calls IH]; [done |].
  cbn [map concat]. unfold replies. rewrite omap_app. fold (replies (concat (map (call_stretches (Some summary)) calls))).
  rewrite IH. unfold answered, call_stretches. cbn [List.filter].
  by destruct (blank (call_command c)).
Qed.

Lemma asks_of_calls (calls : list Call) :
  asks (concat (map (call_stretches (Some summary)) calls)) = answered calls.
Proof.
  induction calls as [| c calls IH]; [done |].
  cbn [map concat]. unfold asks. rewrite omap_app. fold (asks (concat (map (call_stretches (Some summary)) calls))).
  rewrite IH. unfold answered, call_stretches. cbn [List.filter].
  by destruct (blank (call_command c)).
Qed.

End ConsoleSchedules.

(** The two commands of [crossed_schedule] overlap. *)
Example crossed_is_a_schedule :
  interleaving
    (map (useAiConsole.call_stretches (Some (ar_summary sample_response)))
       [slow_call; quick_call])
    crossed_schedule.
Proof.
  unfold crossed_schedule.
  eapply (interleaving_step _ 0%nat); [reflexivity |].
  do 2 (eapply (interleaving_step _ 1%nat); [reflexivity |]).
  eapply (interleaving_step _ 0%nat); [reflexivity |].
  apply interleaving_done. by repeat constructor.
Qed.

(** [X8] With a Summary at hand the log is append-only, however the
    commands overlap: at every moment it is the log from before followed
    by one entry per command answered so far, in the order of the
    answers; once every command is answered the new entries are those of
    the non-blank commands, each once, and as many requests were sent,
    one per non-blank command, in the order the commands were made.  When
    each command is answered before the next is made, the entries are in
    the order of the commands. *)
Theorem console_log_records_every_command
    (summary : FlightSummary) (ruleEvents : list RuleEvent)
    (calls : list useAiConsole.Call) (schedule : list useAiConsole.Stretch)
    (s : useAiConsole.ConsoleState) :
  interleaving (map (useAiConsole.call_stretches (Some summary)) calls) schedule →
  let effect := useAiConsole.execute summary ruleEvents schedule s in
  (∀ i,
      useAiConsole.logs
        (useAiConsole.after (useAiConsole.execute summary ruleEvents (take i schedule) s))
      = useAiConsole.logs s
        ++ map useAiConsole.entry_of (useAiConsole.replies (take i schedule))) ∧
  useAiConsole.logs (useAiConsole.after effect)
  = useAiConsole.logs s ++ map useAiConsole.entry_of (useAiConsole.replies schedule) ∧
  useAiConsole.replies schedule ≡ₚ answered calls ∧
  useAiConsole.requests effect
  = map (useAiConsole.request_of summary ruleEvents) (useAiConsole.asks schedule) ∧
  useAiConsole.asks schedule ≡ₚ answered calls ∧
  (schedule = concat (map (useAiConsole.call_stretches (Some summary)) calls) →
     useAiConsole.replies schedule = answered calls ∧
     useAiConsole.asks schedule = answered calls).
Proof.
  intros Hschedule. cbn zeta.
  pose proof (interleaving_Permutation _ _ Hschedule) as Hperm.
  split; [intros i; apply logs_of_schedule |].
  split; [apply logs_of_schedule |].
  split.
  { unfold useAiConsole.replies at 1. rewrite Hperm. fold (useAiConsole.replies
      (concat (map (useAiConsole.call_stretches (Some summary)) calls))).
    by rewrite replies_of_calls. }
  split; [apply requests_of_schedule |].
  split.
  { unfold useAiConsole.asks at 1. rewrite Hperm. fold (useAiConsole.asks
      (concat (map (useAiConsole.call_stretches (Some summary)) calls))).
    by rewrite asks_of_calls. }
  intros ->. by rewrite replies_of_calls, asks_of_calls.
Qed.

Lemma console_log_records_every_command_witness :
  useAiConsole.logs
    (useAiConsole.after
       (useAiConsole.execute (ar_summary sample_response) [sample_rule_event]
          crossed_schedule sample_console))
  = [useAiConsole.entry_of quick_call; useAiConsole.entry_of slow_call].
Proof.
  exact (proj1 (proj2 (console_log_records_every_command
                         (ar_summary sample_response) [sample_rule_event]
                         [slow_call; quick_call] crossed_schedule sample_console
                         crossed_is_a_schedule))).
Defined.

(** Without a Summary no command has any effect. *)
Lemma console_idle_without_summary
    (ruleEvents : list RuleEvent) (c : useAiConsole.Call) (s : useAiConsole.ConsoleState) :
  useAiConsole.call_stretches None c = [] ∧
  useAiConsole.runCommand None ruleEvents (useAiConsole.call_command c)
    (useAiConsole.call_window c) (useAiConsole.call_env c) s
  = {| useAiConsole.requests := []; useAiConsole.after := s |}.
Proof. done. Qed.

(** ** AiConsole: the form *)

Section Form.

Import AiConsole.

Lemma find_first_with_id (presets : list PresetWindow) (id : string) (p : PresetWindow) :
  JS.find (λ preset, bool_decide (Some (pw_id preset) = Some id)) presets = Some p →
  p ∈ presets ∧ pw_id p = id.
Proof.
  unfold JS.find. intros [Hin Hid]%find_some.
  split; [by apply list_elem_of_In |].
  apply bool_decide_eq_true in Hid. by injection Hid.
Qed.

(** What [handleSubmit] passes on for a non-blank command. *)
Lemma handleSubmit_window (st : FormState) (window : Q * Q) (presets : list PresetWindow) :
  useAiConsole.blank (command st) = false →
  handleSubmit st window presets
  = {| submitted :=
         Some (command st,
               as_command_window
                 (if truthy (selectedPreset st) then
                    match JS.find (λ preset, bool_decide (Some (pw_id preset) = selectedPreset st))
                            presets with
                    | Some p => pw_window p
                    | None => window
                    end
                  else window));
       form_after := {| command := EmptyString; selectedPreset := selectedPreset st |} |}.
Proof.
  intros Hb. unfold handleSubmit, presetWindow. rewrite Hb.
  destruct (truthy (selectedPreset st)); [| done].
  by destruct (JS.find _ presets) as [p |].
Qed.

Lemma find_by_id (presets : list PresetWindow) (id : string) :
  JS.find (λ preset, bool_decide (Some (pw_id preset) = Some id)) presets
  = JS.find (λ preset, bool_decide (pw_id preset = id)) presets.
Proof.
  unfold JS.find. induction presets as [| q presets IH]; [done |]. cbn [List.find].
  repeat case_bool_decide; try done; congruence.
Qed.

(** With a preset selected that the list holds, its window is passed
    on. *)
Lemma handleSubmit_with_preset
    (st : FormState) (window : Q * Q) (presets : list PresetWindow)
    (id : string) (p : PresetWindow) :
  selectedPreset st = Some id → id ≠ EmptyString →
  JS.find (λ preset, bool_decide (pw_id preset = id)) presets = Some p →
  useAiConsole.blank (command st) = false →
  handleSubmit st window presets
  = {| submitted := Some (command st, as_command_window (pw_window p));
       form_after := {| command := EmptyString; selectedPreset := Some id |} |}.
Proof.
  intros Hsel Hid Hfind Hb. rewrite (handleSubmit_window st window presets Hb).
  rewrite Hsel, find_by_id, Hfind. destruct id; done.
Qed.

End Form.

(** [X9] A non-blank question is passed on with the window of the first
    preset that has the selected id; with nothing selected, or an id no
    preset has, it is passed on with the window of the strip.  The text
    is cleared, the selection stays.  A blank text passes nothing on and
    stays in the field. *)
Theorem form_submits_selected_preset_window
    (st : AiConsole.FormState) (window : Q * Q) (presets : list PresetWindow) :
  (useAiConsole.blank (AiConsole.command st) = true →
     AiConsole.handleSubmit st window presets
     = {| AiConsole.submitted := None; AiConsole.form_after := st |}) ∧
  (useAiConsole.blank (AiConsole.command st) = false →
     AiConsole.form_after (AiConsole.handleSubmit st window presets)
     = {| AiConsole.command := EmptyString;
          AiConsole.selectedPreset := AiConsole.selectedPreset st |} ∧
     (∀ id p,
         AiConsole.selectedPreset st = Some id → id ≠ EmptyString →
         JS.find (λ preset, bool_decide (pw_id preset = id)) presets = Some p →
         AiConsole.submitted (AiConsole.handleSubmit st window presets)
         = Some (AiConsole.command st, AiConsole.as_command_window (pw_window p))) ∧
     (AiConsole.selectedPreset st = None
      ∨ AiConsole.selectedPreset st = Some EmptyString
      ∨ (∀ p, p ∈ presets → Some (pw_id p) ≠ AiConsole.selectedPreset st) →
      AiConsole.submitted (AiConsole.handleSubmit st window presets)
      = Some (AiConsole.command st, AiConsole.as_command_window window))).
Proof.
  split.
  - intros Hb. unfold AiConsole.handleSubmit. by rewrite Hb.
  - intros Hb. split; [by rewrite (handleSubmit_window st window presets Hb) |]. split.
    + intros id p Hsel Hid Hfind.
      by rewrite (handleSubmit_with_preset st window presets id p).
    + rewrite (handleSubmit_window st window presets Hb).
      cbn [AiConsole.form_after AiConsole.submitted].
      intros [Hsel | [Hsel | Hnone]].
      * by rewrite Hsel.
      * by rewrite Hsel.
      * destruct (AiConsole.truthy (AiConsole.selectedPreset st)); [| done].
        destruct (JS.find _ presets) as [p |] eqn:Hfind; [| done].
        unfold JS.find in Hfind. apply find_some in Hfind as [Hin Hid].
        apply bool_decide_eq_true in Hid. apply list_elem_of_In in Hin.
        by destruct (Hnone p Hin).
Qed.

Lemma form_submits_selected_preset_window_witness :
  AiConsole.submitted
    (AiConsole.handleSubmit
       {| AiConsole.command := "Why the spike?"; AiConsole.selectedPreset := Some "climb" |}
       (0, 5)%Q two_presets)
  = Some ("Why the spike?", AiConsole.as_command_window (60, 120)%Q) ∧
  AiConsole.submitted
    (AiConsole.handleSubmit
       {| AiConsole.command := "Why the spike?"; AiConsole.selectedPreset := Some "descent" |}
       (0, 5)%Q two_presets)
  = Some ("Why the spike?", AiConsole.as_command_window (0, 5)%Q) ∧
  AiConsole.handleSubmit
    {| AiConsole.command := "   "; AiConsole.selectedPreset := Some "climb" |}
    (0, 5)%Q two_presets
  = {| AiConsole.submitted := None;
       AiConsole.form_after :=
         {| AiConsole.command := "   "; AiConsole.selectedPreset := Some "climb" |} |}.
Proof.
  split; [| split].
  - destruct (proj2 (form_submits_selected_preset_window
                       {| AiConsole.command := "Why the spike?";
                          AiConsole.selectedPreset := Some "climb" |}
                       (0, 5)%Q two_presets) eq_refl) as (_ & Hpreset & _).
    apply (Hpreset "climb" {| pw_id := "climb"; pw_label := "Climb";
                              pw_window := (60, 120)%Q |});
      [reflexivity | discriminate | reflexivity].
  - destruct (proj2 (form_submits_selected_preset_window
                       {| AiConsole.command := "Why the spike?";
                          AiConsole.selectedPreset := Some "descent" |}
                       (0, 5)%Q two_presets) eq_refl) as (_ & _ & Hwindow).
    apply Hwindow. right. right. intros p Hp.
    repeat (apply elem_of_cons in Hp; destruct Hp as [-> | Hp]; [discriminate |]).
    by apply not_elem_of_nil in Hp.
  - apply (proj1 (form_submits_selected_preset_window
                    {| AiConsole.command := "   "; AiConsole.selectedPreset := Some "climb" |}
                    (0, 5)%Q two_presets)).
    reflexivity.
Defined.

(** [X10] Nothing but another click changes the selection: once a preset is
    selected, every question submitted afterwards goes out with that
    preset's window, wherever the strip's window has been moved in the
    meantime. *)
Theorem preset_selection_is_sticky
    (presets : list PresetWindow) (id : string) (p : PresetWindow)
    (st : AiConsole.FormState) (gs : list AiConsole.Gesture) :
  AiConsole.selectedPreset st = Some id → id ≠ EmptyString →
  JS.find (λ preset, bool_decide (pw_id preset = id)) presets = Some p →
  Forall (λ g, AiConsole.is_click g = false) gs →
  Forall (λ call, snd call = AiConsole.as_command_window (pw_window p))
         (fst (AiConsole.gestures presets st gs)) ∧
  AiConsole.selectedPreset (snd (AiConsole.gestures presets st gs)) = Some id.
Proof.
  intros Hsel Hid Hfind Hgs. revert st Hsel.
  induction Hgs as [| g gs Hg _ IH]; intros st Hsel; [by split |].
  cbn [AiConsole.gestures].
  destruct g as [text | other | window]; [| done |]; cbn [AiConsole.gesture].
  - cbn [AiConsole.submitted AiConsole.form_after fst snd]. by apply IH.
  - destruct (useAiConsole.blank (AiConsole.command st)) eqn:Hb.
    + unfold AiConsole.handleSubmit. rewrite Hb.
      cbn [AiConsole.submitted AiConsole.form_after fst snd]. by apply IH.
    + rewrite (handleSubmit_with_preset st window presets id p Hsel Hid Hfind Hb).
      cbn [AiConsole.submitted AiConsole.form_after fst snd].
      destruct (IH {| AiConsole.command := EmptyString;
                      AiConsole.selectedPreset := Some id |} eq_refl) as [Hall Hend].
      split; [by constructor | done].
Qed.

Lemma preset_selection_is_sticky_witness :
  Forall (λ call, snd call = AiConsole.as_command_window (60, 120)%Q)
         (fst (AiConsole.gestures two_presets
                 {| AiConsole.command := ""; AiConsole.selectedPreset := Some "climb" |}
                 [AiConsole.TypeText "first"; AiConsole.Submit (0, 5)%Q;
                  AiConsole.TypeText "second"; AiConsole.Submit (200, 300)%Q])) ∧
  AiConsole.selectedPreset
    (snd (AiConsole.gestures two_presets
            {| AiConsole.command := ""; AiConsole.selectedPreset := Some "climb" |}
            [AiConsole.TypeText "first"; AiConsole.Submit (0, 5)%Q;
             AiConsole.TypeText "second"; AiConsole.Submit (200, 300)%Q]))
  = Some "climb".
Proof.
  apply (preset_selection_is_sticky two_presets "climb"
           {| pw_id := "climb"; pw_label := "Climb"; pw_window := (60, 120)%Q |});
    [reflexivity | discriminate | reflexivity | repeat constructor].
Defined.

(** ** App: the window a new result starts with *)

(** [X11] When a result arrives the strip's window becomes the window of the
    first preset offered for navigation, the backend's first preset or
    else the full flight, and the cursor is put at its start; without a
    result nothing moves. *)
Theorem default_window_is_first_preset (r : AnalysisResponse) (st : App.AppState) :
  pw_window <$> head (App.presets (Some r)) = Some (App.defaultWindow r) ∧
  App.windowRange (App.onResult (Some r) st) = App.defaultWindow r ∧
  App.cursorTime (App.onResult (Some r) st) = fst (App.defaultWindow r) ∧
  App.onResult None st = st.
Proof.
  unfold App.defaultWindow, App.presets, App.onResult, App.defaultWindow.
  destruct (ar_presets r) as [[| p ps] |]; cbn; repeat split.
Qed.

Lemma last_is_latest (l : list SignalMatrixPoint) (x final : SignalMatrixPoint) :
  StronglySorted not_later l → last l = Some final → x ∈ l →
  (smp_time_seconds x <= smp_time_seconds final)%Q.
Proof.
  intros Hsorted Hlast Hx.
  destruct l as [| a l] using rev_ind; [done |].
  rewrite last_snoc in Hlast. injection Hlast as ->.
  apply elem_of_app in Hx as [Hx | Hx].
  - apply (StronglySorted_app_1_elem_of _ _ _ _ _ Hsorted Hx).
    by apply list_elem_of_singleton.
  - apply list_elem_of_singleton in Hx. subst. apply Qle_refl.
Qed.

(** [X12] Without presets from the backend, a strip whose times start at 0 or
    later and never decrease is shown whole when its result arrives: the
    full-flight window leaves no point out. *)
Theorem full_flight_window_shows_every_point (r : AnalysisResponse) (st : App.AppState) :
  ar_presets r = None ∨ ar_presets r = Some [] →
  Forall (λ p, 0 <= smp_time_seconds p)%Q (signal_matrix r) →
  StronglySorted not_later (signal_matrix r) →
  SignalStrip.filtered (SignalStrip.merged (signal_matrix r) (risk_trace r))
    (App.windowRange (App.onResult (Some r) st))
  = SignalStrip.merged (signal_matrix r) (risk_trace r).
Proof.
  intros Hnone Hpos Hsorted.
  assert (Hw : App.windowRange (App.onResult (Some r) st) = (0%Q, App.duration r)).
  { unfold App.onResult, App.defaultWindow. cbn [App.windowRange].
    by destruct Hnone as [-> | ->]. }
  rewrite Hw.
  destruct (filter_and_merge_parts (signal_matrix r) (risk_trace r) (0%Q, App.duration r))
    as [-> _].
  f_equal. apply (window_filter_all smp_time_seconds).
  apply Forall_forall. intros x Hx. split; cbn [fst snd].
  - by apply (proj1 (Forall_forall _ _) Hpos).
  - unfold App.duration, JS.at_last, JS.nullish.
    destruct (last (signal_matrix r)) as [final |] eqn:Hlast.
    + cbn. by apply (last_is_latest (signal_matrix r)).
    + apply last_None in Hlast. rewrite Hlast in Hx. by apply not_elem_of_nil in Hx.
Qed.

Lemma full_flight_window_shows_every_point_witness :
  SignalStrip.filtered
    (SignalStrip.merged (signal_matrix sample_response) (risk_trace sample_response))
    (App.windowRange
       (App.onResult (Some sample_response)
          {| App.cursorTime := 0; App.windowRange := (0, 0)%Q |}))
  = SignalStrip.merged (signal_matrix sample_response) (risk_trace sample_response).
Proof.
  apply (full_flight_window_shows_every_point sample_response).
  - right. reflexivity.
  - repeat constructor; vm_compute; discriminate.
  - repeat constructor; vm_compute; discriminate.
Defined.

(** ** Labels and strokes *)

Section Replace.

Variables c d : ascii.
Hypothesis Hcd : c ≠ d.

Lemma replace_all_removes (s : string) : occurrences c (JS.replace_all c d s) = 0%nat.
Proof.
  induction s as [| a s IH]; [done |]. cbn [JS.replace_all occurrences].
  destruct (Ascii.eqb_spec a c) as [-> | Hne].
  - destruct (Ascii.eqb_spec d c); [congruence | done].
  - destruct (Ascii.eqb_spec a c); [congruence | done].
Qed.

Lemma replace_all_length (s : string) :
  String.length (JS.replace_all c d s) = String.length s.
Proof. induction s as [| a s IH]; [done |]. cbn. by rewrite IH. Qed.

Lemma replace_all_same (s : string) :
  JS.replace_all c d s = s ↔ occurrences c s = 0%nat.
Proof.
  induction s as [| a s IH]; [done |]. cbn [JS.replace_all occurrences].
  destruct (Ascii.eqb_spec a c) as [-> | Hne].
  - split; [| done]. intros [= Heq _]. congruence.
  - cbn. rewrite <- IH. split; [by intros [= ->] | by intros ->].
Qed.

(** Replacing the first occurrence is replacing them all exactly when
    there is at most one. *)
Lemma replace_first_is_all (s : string) :
  JS.replace_first c d s = JS.replace_all c d s ↔ (occurrences c s ≤ 1)%nat.
Proof.
  induction s as [| a s IH]; [cbn; split; [lia | done] |].
  cbn [JS.replace_first JS.replace_all occurrences].
  destruct (Ascii.eqb_spec a c) as [-> | Hne].
  - split.
    + intros [= Heq]. symmetry in Heq. apply replace_all_same in Heq. lia.
    + intros Hle. f_equal. symmetry. apply replace_all_same. lia.
  - cbn. rewrite <- IH. split; [by intros [= ->] | by intros ->].
Qed.

End Replace.

(** [X13] The label of a critical marker on the chart and the heading of the
    same event on the timeline agree exactly when the event type has at
    most one underscore: the timeline replaces every underscore by a
    space, the chart only the first.  The timeline's heading has no
    underscore left. *)
Theorem marker_and_timeline_labels (event : FlightEvent) :
  (FlightChart.markerLabel event = EventsTimeline.typeLabel event
   ↔ (occurrences "_" (fe_type event) ≤ 1)%nat) ∧
  occurrences "_" (EventsTimeline.typeLabel event) = 0%nat ∧
  String.length (EventsTimeline.typeLabel event) = String.length (fe_type event).
Proof.
  unfold FlightChart.markerLabel, EventsTimeline.typeLabel.
  split; [by apply replace_first_is_all |].
  split; [by apply replace_all_removes | apply replace_all_length].
Qed.

Example labels_of_low_altitude_bank :
  JS.replace_first "_" " " "LOW_ALTITUDE_BANK" = "LOW ALTITUDE_BANK" ∧
  JS.replace_all "_" " " "LOW_ALTITUDE_BANK" = "LOW ALTITUDE BANK".
Proof. split; reflexivity. Qed.

(** [X14] However many signals the strip draws, each line has a stroke: the six
    colours are told apart within any six neighbouring lines and come
    round again after six; and a signal of the band axis is drawn against
    the left axis. *)
Theorem every_line_has_a_stroke (index : nat) (signal : SignalMeta) :
  is_Some (SignalStrip.stroke index) ∧
  SignalStrip.stroke (index + 6) = SignalStrip.stroke index ∧
  (∀ other, (index < other < index + 6)%nat →
            SignalStrip.stroke other ≠ SignalStrip.stroke index) ∧
  (SignalStrip.yAxisId signal = "right" ↔ sm_axis signal = axis_right) ∧
  (sm_axis signal ≠ axis_right → SignalStrip.yAxisId signal = "left").
Proof.
  unfold SignalStrip.stroke. cbn [length SignalStrip.COLORS].
  assert (Hlt : (index mod 6 < 6)%nat) by (apply Nat.mod_upper_bound; lia).
  split; [| split; [| split; [| split]]].
  - apply lookup_lt_is_Some. cbn. lia.
  - f_equal. rewrite <- (Nat.Div0.add_mod_idemp_r index 6 6). cbn. by rewrite Nat.add_0_r.
  - intros other Hother.
    assert (Hlt' : (other mod 6 < 6)%nat) by (apply Nat.mod_upper_bound; lia).
    assert (Hne : (other mod 6)%nat ≠ (index mod 6)%nat).
    { intros Heq.
      pose proof (Nat.div_mod_eq other 6). pose proof (Nat.div_mod_eq index 6). lia. }
    revert Hne. generalize (other mod 6)%nat (index mod 6)%nat Hlt' Hlt. clear.
    intros a b Hb Ha Hne.
    do 6 (destruct a as [| a]; [do 6 (destruct b as [| b]; [done |]); lia |]). lia.
  - unfold SignalStrip.yAxisId. by destruct (sm_axis signal).
  - unfold SignalStrip.yAxisId. by destruct (sm_axis signal).
Qed.

Lemma every_line_has_a_stroke_witness :
  SignalStrip.stroke 7 ≠ SignalStrip.stroke 2 ∧
  SignalStrip.yAxisId
    {| sm_key := "g_normal"; sm_label := "Nz"; sm_unit := "G"; sm_axis := axis_band |}
  = "left".
Proof.
  destruct (every_line_has_a_stroke 2
              {| sm_key := "g_normal"; sm_label := "Nz"; sm_unit := "G";
                 sm_axis := axis_band |}) as (_ & _ & Hapart & _ & Hleft).
  split; [apply Hapart; lia | apply Hleft; discriminate].
Defined.
